(** * mdfmt: the Markdown-to-Markdown renderer of [markdown/main.go]

    A shallow embedding of the renderer (package [markdown]) together with
    the few library routines it calls, followed by the properties of the
    renderer checked against it.

    Conventions.  A Go [[]byte] and a Go [string] are both byte sequences and
    are modelled by [string] (an [ascii] is one byte).  A Go [int] is a [Z]
    with the 64-bit wrap-around of [++] and [--] written out.  The Go maps
    [map[int]int] and [map[int]bool] are [gmap]s; reading an absent key gives
    the zero value of the element type, as in Go. *)

From Stdlib Require Import ZArith String Ascii List Bool Lia DecimalString.
From stdpp Require Import gmap strings.
Import ListNotations.
Local Open Scope Z_scope.

(** ** Go runtime and library routines used by the renderer *)

Module Go.

(** The newline byte, [ '\n' ]. *)
Definition LF : ascii := "010"%char.
Definition CR : ascii := "013"%char.
Definition TAB : ascii := "009"%char.
Definition SP : ascii := " "%char.
Definition NUL : ascii := "000"%char.

Definition nl : string := String LF EmptyString.
Definition empty : string := EmptyString.

(** [len(s)] as a Go [int]. *)
Definition len (s : string) : Z := Z.of_nat (String.length s).

(** Two's-complement wrap-around of a 64-bit [int]. *)
Definition wrap (z : Z) : Z := (z + 2 ^ 63) mod 2 ^ 64 - 2 ^ 63.
Definition incr (z : Z) : Z := wrap (z + 1).
Definition decr (z : Z) : Z := wrap (z - 1).
Definition is_int (z : Z) : Prop := - 2 ^ 63 <= z < 2 ^ 63.

(** [fmt.Sprintf("%d", z)]. *)
Definition itoa (z : Z) : string := NilZero.string_of_int (Z.to_int z).

(** [strings.Fields] on ASCII input: the maximal runs of bytes that are not
    one of the six ASCII white-space bytes.  (The two-byte encodings of the
    non-ASCII Unicode spaces are not white space in this model.) *)
Definition isSpace (c : ascii) : bool :=
  existsb (Ascii.eqb c) [SP; TAB; LF; "011"%char; "012"%char; CR].

Fixpoint Fields (s : string) : list string :=
  match s with
  | EmptyString => []
  | String c s' =>
      if isSpace c then Fields s'
      else match s' with
           | EmptyString => [String c EmptyString]
           | String c' _ =>
               if isSpace c' then String c EmptyString :: Fields s'
               else match Fields s' with
                    | t :: ts => String c t :: ts
                    | [] => [String c EmptyString]
                    end
           end
  end.

(** [bytes.Split(s, []byte{sep})] with [n = -1]: all the pieces between
    separators; one more piece than there are separators. *)
Fixpoint Split (sep : ascii) (s : string) : list string :=
  match s with
  | EmptyString => [EmptyString]
  | String c s' =>
      if Ascii.eqb c sep then EmptyString :: Split sep s'
      else match Split sep s' with
           | l :: ls => String c l :: ls
           | [] => [String c EmptyString]
           end
  end.

(** [bytes.Replace(s, []byte{old}, new, -1)] for a one-byte [old]. *)
Fixpoint Replace (old : ascii) (new : string) (s : string) : string :=
  match s with
  | EmptyString => EmptyString
  | String c s' =>
      if Ascii.eqb c old then new +:+ Replace old new s'
      else String c (Replace old new s')
  end.

(** [strings.Repeat(s, n)] for [n >= 0]. *)
Fixpoint RepeatN (s : string) (n : nat) : string :=
  match n with
  | O => EmptyString
  | S n' => s +:+ RepeatN s n'
  end.
Definition Repeat (s : string) (n : Z) : string := RepeatN s (Z.to_nat n).

(** [indentwriter.New(w, indent).Write(p)] of shurcooL/go: the bytes that
    reach [w].  Every non-empty line is prefixed by [indent] tabs: the
    prefix is written before the first byte after a line start that is not
    a newline. *)
Fixpoint indentLoop (prefix : string) (wroteIndent : bool) (p : string)
  : string :=
  match p with
  | EmptyString => EmptyString
  | String b p' =>
      if Ascii.eqb b LF then String b (indentLoop prefix false p')
      else if wroteIndent then String b (indentLoop prefix true p')
      else prefix +:+ String b (indentLoop prefix true p')
  end.
Definition indentWrite (indent : Z) (p : string) : string :=
  indentLoop (Repeat (String TAB EmptyString) indent) false p.

(** [bytes.Buffer.Bytes()]: a buffer that never received a byte still holds
    the nil slice. *)
Definition Bytes (buf : string) : option string :=
  match buf with
  | EmptyString => None
  | _ => Some buf
  end.

End Go.

(** ** The document tree of gomarkdown's [ast] package, as the renderer
     reads it *)

Module ast.

Inductive WalkStatus := GoToNext | SkipChildren | Terminate.

(** The list-flag bits ([ast.ListType], [1 << iota]). *)
Definition ListTypeOrdered : Z := 1.
Definition ListTypeDefinition : Z := 2.
Definition ListTypeTerm : Z := 4.
Definition ListItemContainsBlock : Z := 8.
Definition ListItemBeginningOfList : Z := 16.
Definition ListItemEndOfList : Z := 32.

(** A node with the attributes [RenderNode] reads.  [Other] stands for
    every node type without a case in the renderer's type switch (tables,
    math, captions, ...). *)
Inductive Node :=
| Text (Literal : string)
| Softbreak
| Hardbreak
| Emph (Literal : string)
| Strong (Literal : string)
| Del (Literal : string)
| BlockQuote (Literal : string)
| Link (Destination Title Literal : string)
| Image (Destination Title : string)
| Code (Literal : string)
| CodeBlock (Info Literal : string)
| Document
| Paragraph
| HTMLSpan (Literal : string)
| HTMLBlock (Literal : string)
| Heading (Level : Z)
| HorizontalRule
| List (ListFlags : Z)
| ListItem (ListFlags : Z) (Literal : string)
| Other.

(** A node is a leaf or a container with children ([AsContainer() != nil]). *)
#[local] Unset Elimination Schemes.
Inductive Tree :=
| Leaf (n : Node)
| Container (n : Node) (children : list Tree).
#[local] Set Elimination Schemes.

(** Structural induction over a tree and, through [Forall], its children. *)
Fixpoint Tree_ind (P : Tree -> Prop)
  (HLeaf : forall n, P (Leaf n))
  (HContainer : forall n cs, Forall P cs -> P (Container n cs))
  (t : Tree) : P t :=
  match t with
  | Leaf n => HLeaf n
  | Container n cs =>
      HContainer n cs
        ((fix children (l : list Tree) : Forall P l :=
            match l with
            | [] => @List.Forall_nil Tree P
            | c :: l' =>
                @List.Forall_cons Tree P c l'
                  (Tree_ind P HLeaf HContainer c) (children l')
            end) cs)
  end.

End ast.
Import ast.
Import Go.

(** ** Package [markdown] *)

(** [RenderNodeFunc].  The hook receives the writer, the node and the
    direction; what it does to the output is modelled by the bytes it
    writes, returned with the walk status and the handled flag. *)
Definition RenderNodeFunc : Type :=
  Node -> bool -> string * (WalkStatus * bool).

Record Options := mkOptions {
  Terminal : bool;
  RenderNodeHook : option RenderNodeFunc
}.

(** The fields of [Renderer] that live code reads or writes.  ([headers],
    [columnAligns], [columnWidths], [cells] and [stringWidth] are only used
    by the table code, which is commented out.) *)
Record Renderer := mkRenderer {
  orderedListCounter : gmap Z Z;
  paragraph : gmap Z bool;
  listDepth : Z;
  lastNormalText : string;
  lastOutputLen : Z;
  opts : Options
}.

(** What a call can change: the receiver [*r], the bytes written to [w] so
    far, and (a ghost log) the texts handed to [format.Source] so far. *)
Record State := mkState {
  rd : Renderer;
  wr : string;
  gofmtCalls : list string
}.

(** A method of [*Renderer] that returns nothing. *)
Definition Act : Type := State -> State.

Definition skip : Act := fun s => s.
Definition andThen (a b : Act) : Act := fun s => b (a s).
Infix ">>>" := andThen (at level 61, left associativity).

(** Field updates. *)
Definition set_orderedListCounter (m : gmap Z Z) (r : Renderer) : Renderer :=
  mkRenderer m (paragraph r) (listDepth r) (lastNormalText r)
             (lastOutputLen r) (opts r).
Definition set_paragraph (m : gmap Z bool) (r : Renderer) : Renderer :=
  mkRenderer (orderedListCounter r) m (listDepth r) (lastNormalText r)
             (lastOutputLen r) (opts r).
Definition set_listDepth (d : Z) (r : Renderer) : Renderer :=
  mkRenderer (orderedListCounter r) (paragraph r) d (lastNormalText r)
             (lastOutputLen r) (opts r).
Definition set_lastNormalText (t : string) (r : Renderer) : Renderer :=
  mkRenderer (orderedListCounter r) (paragraph r) (listDepth r) t
             (lastOutputLen r) (opts r).
Definition set_lastOutputLen (n : Z) (r : Renderer) : Renderer :=
  mkRenderer (orderedListCounter r) (paragraph r) (listDepth r)
             (lastNormalText r) n (opts r).

(** [r.f = ...]: an update of the receiver, computed from its current value. *)
Definition modR (f : Renderer -> Renderer) : Act :=
  fun s => mkState (f (rd s)) (wr s) (gofmtCalls s).

(** [w.Write(d)], also [io.WriteString] and [fmt.Fprintf]: the writer is a
    [bytes.Buffer], which appends and never fails. *)
Definition Write (d : string) : Act :=
  fun s => mkState (rd s) (wr s +:+ d) (gofmtCalls s).

(** Map reads with Go's zero value for an absent key. *)
Definition counterAt (r : Renderer) (k : Z) : Z :=
  default 0 (orderedListCounter r !! k).
Definition paragraphAt (r : Renderer) (k : Z) : bool :=
  default false (paragraph r !! k).

Definition NewRenderer (o : option Options) : Renderer :=
  mkRenderer ∅ ∅ 0 empty 0
    (match o with
     | Some o' => o'
     | None => mkOptions false None
     end).

Definition out (d : string) : Act :=
  modR (set_lastOutputLen (len d)) >>> Write d.

Definition outs (s : string) : Act :=
  modR (set_lastOutputLen (len s)) >>> Write s.

Definition cr : Act :=
  fun s => if 0 <? lastOutputLen (rd s) then outs nl s else s.

(** The guard [if out.Len() > 0] of [doubleSpace] is commented out in the
    source: the newline is written unconditionally. *)
Definition doubleSpace : Act := outs nl.

(** [list] in the source; [list] names the list type here. *)
Definition list_ (flags : Z) : Act :=
  doubleSpace >>>
  modR (fun r => set_listDepth (incr (listDepth r)) r) >>>
  (if negb (Z.land flags ListTypeOrdered =? 0)
   then modR (fun r =>
          set_orderedListCounter (<[listDepth r := 1]> (orderedListCounter r)) r)
   else skip) >>>
  (* the deferred function, run when the method returns *)
  modR (fun r => set_listDepth (decr (listDepth r)) r).

Definition listItem (flags : Z) (text : string) : Act :=
  (if negb (Z.land flags ListTypeOrdered =? 0)
   then (fun s => Write (itoa (counterAt (rd s) (listDepth (rd s))) +:+ ".") s) >>>
        Write (indentWrite 1 text) >>>
        modR (fun r =>
          set_orderedListCounter
            (<[listDepth r := incr (counterAt r (listDepth r))]>
               (orderedListCounter r)) r)
   else outs "-" >>> Write (indentWrite 1 text)) >>>
  outs nl >>>
  (fun s =>
     if paragraphAt (rd s) (listDepth (rd s))
     then ((if Z.land flags ListItemEndOfList =? 0 then outs nl else skip) >>>
           modR (fun r =>
             set_paragraph (<[listDepth r := false]> (paragraph r)) r)) s
     else s).

Definition horizontalRule : Act :=
  doubleSpace >>> outs ("---" +:+ nl).

Definition heading (level : Z) : Act :=
  doubleSpace >>>
  (if 3 <=? level then outs (Repeat "#" level +:+ " ") else skip).

Definition htmlSpan (lit : string) : Act := out lit.

Definition htmlBlock (lit : string) : Act :=
  doubleSpace >>> out lit >>> outs nl.

Definition doParagraph : Act :=
  doubleSpace >>>
  modR (fun r => set_paragraph (<[listDepth r := true]> (paragraph r)) r) >>>
  outs nl.

(** *** Text helpers *)

Definition BACKSLASH : string := "\".
Definition DQUOTE : string := String "034"%char EmptyString.
Definition ESC : string := String "027"%char EmptyString.
Definition FENCE : string := "```".

(** The loop of [cleanWithoutTrim]; [p] is the last byte appended to [b]
    (initially the zero byte). *)
Fixpoint cleanLoop (p : ascii) (s : string) : string :=
  match s with
  | EmptyString => EmptyString
  | String q0 s' =>
      let q := if Ascii.eqb q0 LF || Ascii.eqb q0 CR || Ascii.eqb q0 TAB
               then SP else q0 in
      if negb (Ascii.eqb q SP) || negb (Ascii.eqb p SP)
      then String q (cleanLoop q s')
      else cleanLoop p s'
  end.

Definition cleanWithoutTrim (s : string) : string := cleanLoop NUL s.

Definition escape (text : string) : string :=
  Replace "\"%char (BACKSLASH +:+ BACKSLASH) text.

(** [b < '0' || b > '9'] on the byte values. *)
Definition notDigit (b : ascii) : bool :=
  (N_of_ascii b <? 48)%N || (57 <? N_of_ascii b)%N.

Fixpoint isNumber (data : string) : bool :=
  match data with
  | EmptyString => true
  | String b data' => if notDigit b then false else isNumber data'
  end.

(** One [case] of a [switch] on a string: is [t] one of the listed values? *)
Definition oneOf (t : string) (cases : list string) : bool :=
  existsb (String.eqb t) cases.

Definition needsEscaping (text lastNormalText : string) : bool :=
  if oneOf text ["\"; "`"; "*"; "_"; "{"; "}"; "["; "]"; "("; ")"; "#"; "+"; "-"]
  then true
  else if oneOf text ["!"] then false
  else if oneOf text ["."] then isNumber lastNormalText
  else if oneOf text ["<"; ">"] then true
  else false.

(** *** Inline and block emission *)

Definition code (lit : string) : Act :=
  outs "`" >>> out lit >>> outs "`".

Definition image (link title : string) : Act :=
  let alt := empty in
  outs "![" >>> out alt >>> outs "](" >>> out (escape link) >>>
  (if negb (len title =? 0)
   then outs (" " +:+ DQUOTE) >>> out title >>> outs DQUOTE
   else skip) >>>
  outs ")".

Definition link (dest title content : string) : Act :=
  outs "[" >>> out content >>> outs "](" >>> out (escape dest) >>>
  (if negb (len title =? 0)
   then outs (" " +:+ DQUOTE) >>> out title >>> outs DQUOTE
   else skip) >>>
  outs ")".

(** The [for i, line := range lines] loop of [blockQuote]; [n] is
    [len(lines)] and [i] the index of the head of [rest]. *)
Fixpoint quoteLoop (n i : Z) (rest : list string) : Act :=
  match rest with
  | [] => skip
  | line :: rest' =>
      (if i =? n - 1 then skip
       else outs ">" >>>
            (if negb (len line =? 0) then outs " " >>> out line else skip) >>>
            outs nl) >>>
      quoteLoop n (i + 1) rest'
  end.

Definition blockQuote (text : string) : Act :=
  doubleSpace >>>
  (let lines := Split LF text in
   quoteLoop (Z.of_nat (length lines)) 0 lines).

Definition del (lit : string) : Act :=
  outs "~~" >>> out lit >>> outs "~~".

Definition strong (text : string) : Act :=
  fun s =>
    let terminal := Terminal (opts (rd s)) in
    ((if terminal then outs (ESC +:+ "[1m") else skip) >>>
     outs "**" >>> out text >>> outs "**" >>>
     (if terminal then outs (ESC +:+ "[0m") else skip)) s.

Definition emphasis (text : string) : Act :=
  if len text =? 0 then skip
  else outs "*" >>> out text >>> outs "*".

(** Both returns of [skipSpaceIfNeededNormalText] are [false]. *)
Definition skipSpaceIfNeededNormalText (cleanString : string) : bool :=
  match cleanString with
  | String c _ => if negb (Ascii.eqb c SP) then false else false
  | EmptyString => false
  end.

Definition tail (s : string) : string :=
  match s with
  | String _ t => t
  | EmptyString => EmptyString
  end.

Definition text (Literal : string) : Act :=
  fun s =>
    let lit := Literal in
    let normalText := Literal in
    let lit := if needsEscaping lit (lastNormalText (rd s))
               then BACKSLASH +:+ lit else lit in
    let s := modR (set_lastNormalText normalText) s in
    if (0 <? listDepth (rd s)) && String.eqb lit nl then s
    else
      let cleanString := cleanWithoutTrim lit in
      if String.eqb cleanString empty then s
      else
        let cleanString :=
          if skipSpaceIfNeededNormalText cleanString
          then tail cleanString else cleanString in
        outs cleanString s.

(** *** Code blocks, dispatch, and the entry point

    The collaborators outside the repository are parameters: the Go source
    formatter [format.Source], the file system behind [ioutil.ReadFile], and
    the Markdown parser. *)

Section Collaborators.

(** [format.Source(text)]: the formatted source, or [None] for an error. *)
Variable format_Source : string -> option string.

(** Go's [error] values, [ioutil.ReadFile] (data and error, either of which
    may be nil) and [parser.NewWithExtensions(extensions).Parse]. *)
Variable error : Type.
Variable ReadFile : string -> option string * option error.
Variable Parse : option string -> Tree.

(** [formatCode] returns the formatted code, or [None] for [ok = false].
    Each call of [format.Source] is recorded in the ghost log. *)
Definition formatCode (lang text : string) (s : State)
  : option string * State :=
  if oneOf lang ["Go"; "go"]
  then
    let s' := mkState (rd s) (wr s) (gofmtCalls s ++ [text]) in
    match format_Source text with
    | None => (None, s')
    | Some gofmt => (Some gofmt, s')
    end
  else (None, s).

(** The [for _, elt := range strings.Fields(lang)] loop of [codeBlock],
    returning [count].  [strings.Fields] yields no empty element, so
    [elt[0]] is always in range. *)
Fixpoint langLoop (elts : list string) (s : State) : State * Z :=
  match elts with
  | [] => (s, 0)
  | elt :: rest =>
      let elt := match elt with
                 | String c t => if Ascii.eqb c "."%char then t else elt
                 | EmptyString => elt
                 end in
      if len elt =? 0 then langLoop rest s
      else ((outs FENCE >>> outs elt) s, 1)
  end.

Definition codeBlock (Info Literal : string) : Act :=
  fun s =>
    let s := doubleSpace s in
    let text := Literal in
    let lang := Info in
    let (s, count) := langLoop (Fields lang) s in
    let s := if count =? 0 then outs FENCE s else s in
    let s := outs nl s in
    let (res, s) := formatCode lang text s in
    let s := match res with
             | Some formattedCode => out formattedCode s
             | None => out text s
             end in
    outs (FENCE +:+ nl) s.

(** The type switch of [RenderNode]. *)
Definition dispatch (node : Node) : Act :=
  match node with
  | Text lit => text lit
  | Softbreak => cr
  | Hardbreak => outs ("  " +:+ nl)
  | Emph lit => emphasis lit
  | Strong lit => strong lit
  | Del lit => del lit
  | BlockQuote lit => blockQuote lit
  | Link dest title lit => link dest title lit
  | Image dest title => image dest title
  | Code lit => code lit
  | CodeBlock info lit => codeBlock info lit
  | Document => skip
  | Paragraph => doParagraph
  | HTMLSpan lit => htmlSpan lit
  | HTMLBlock lit => htmlBlock lit
  | Heading level => heading level
  | HorizontalRule => horizontalRule
  | List flags => list_ flags
  | ListItem flags lit => listItem flags lit
  | Other => skip
  end.

Definition RenderNode (node : Node) (entering : bool) (s : State)
  : WalkStatus * State :=
  match RenderNodeHook (opts (rd s)) with
  | Some hook =>
      let '(written, (status, didHandle)) := hook node entering in
      let s' := Write written s in
      if didHandle then (status, s') else (GoToNext, dispatch node s')
  | None => (GoToNext, dispatch node s)
  end.

Definition RenderHeader : Act := skip.
Definition RenderFooter : Act := skip.

(** [ast.Walk] of gomarkdown, the driver: a node is visited entering, then
    (a container only) its children are walked and it is visited leaving.
    [Terminate] stops the walk (a container is still closed when it was
    the entering visit that terminated); [SkipChildren] skips the children. *)
Fixpoint Walk (t : Tree) (s : State) : WalkStatus * State :=
  match t with
  | Leaf n =>
      let (status, s1) := RenderNode n true s in
      match status with
      | Terminate => (Terminate, s1)
      | _ => (GoToNext, s1)
      end
  | Container n children =>
      let (status, s1) := RenderNode n true s in
      match status with
      | Terminate => (Terminate, snd (RenderNode n false s1))
      | _ =>
          let (st, s2) :=
            match status with
            | SkipChildren => (GoToNext, s1)
            | _ =>
                (fix walkChildren (cs : list Tree) (s : State)
                   : WalkStatus * State :=
                   match cs with
                   | [] => (GoToNext, s)
                   | c :: cs' =>
                       let (st, s') := Walk c s in
                       match st with
                       | Terminate => (Terminate, s')
                       | _ => walkChildren cs' s'
                       end
                   end) children s1
            end in
          match st with
          | Terminate => (Terminate, s2)
          | _ =>
              let (st', s3) := RenderNode n false s2 in
              match st' with
              | Terminate => (Terminate, s3)
              | _ => (GoToNext, s3)
              end
          end
      end
  end.

(** The loop over the children inside [Walk], by name. *)
Fixpoint WalkChildren (cs : list Tree) (s : State) : WalkStatus * State :=
  match cs with
  | [] => (GoToNext, s)
  | c :: cs' =>
      let (st, s') := Walk c s in
      match st with
      | Terminate => (Terminate, s')
      | _ => WalkChildren cs' s'
      end
  end.

(** The state in which [md.Render(doc, r)] leaves the renderer, its buffer
    and the log, and the bytes it returns. *)
Definition RenderFrom (doc : Tree) (s : State) : State :=
  RenderFooter (snd (Walk doc (RenderHeader s))).

Definition RenderState (doc : Tree) (r : Renderer) : State :=
  RenderFrom doc (mkState r empty []).

Definition Render (doc : Tree) (r : Renderer) : option string :=
  Bytes (wr (RenderState doc r)).

Definition readSource (filename : string) (src : option string)
  : option string * option error :=
  match src with
  | Some _ => (src, None)
  | None => ReadFile filename
  end.

Definition Process (filename : string) (src : option string)
  (o : option Options) : option string * option error :=
  let (input, err) := readSource filename src in
  match err with
  | Some e => (None, Some e)
  | None =>
      let doc := Parse input in
      let r := NewRenderer o in
      let output := Render doc r in
      (output, None)
  end.

End Collaborators.

(** ** Specification-side definitions and sample inputs *)

(** A routine leaves the observation [f] of the receiver as it found it. *)
Definition keeps {A : Type} (f : Renderer -> A) (a : Act) : Prop :=
  forall s, f (rd (a s)) = f (rd s).

(** The structural characters of the escaping policy, as the specification
    lists them: backslash, backtick, asterisk, underscore, braces, brackets,
    parentheses, hash, plus, hyphen, angle brackets. *)
Definition structuralCharacters : list string :=
  ["\"; "`"; "*"; "_"; "{"; "}"; "["; "]"; "("; ")"; "#"; "+"; "-"; "<"; ">"].

(** "Consisted entirely of ASCII digits". *)
Definition isDigit (c : ascii) : Prop :=
  (48 <= N_of_ascii c)%N /\ (N_of_ascii c <= 57)%N.

Definition allDigits (s : string) : Prop :=
  Forall isDigit (list_ascii_of_string s).

(** The escaping policy in the specification's words: the fragment is one of
    the structural characters, or it is a period and the preceding fragment
    is all digits. *)
Definition escapeRequired (lit prev : string) : Prop :=
  In lit structuralCharacters \/ (lit = "." /\ allDigits prev).

(** One line of a block quote as the specification words it. *)
Definition quotedLine (line : string) : string :=
  match line with
  | EmptyString => ">" +:+ nl
  | _ => "> " +:+ line +:+ nl
  end.

(** The fence language tag in the specification's words: the first token of
    the info string that is non-empty after stripping one leading period. *)
Definition stripDot (t : string) : string :=
  match t with
  | String c t' => if Ascii.eqb c "."%char then t' else t
  | EmptyString => t
  end.


(** A renderer just made, with nothing written and no formatter call. *)
Definition start (o : option Options) : State :=
  mkState (NewRenderer o) empty [].

Definition fresh : State := start None.

(** Two formatters: one that rejects every source, one that rewrites every
    source. *)
Definition gofmt_rejects : string -> option string := fun _ => None.
Definition gofmt_rewrites : string -> option string :=
  fun _ => Some "formatted".

(** A file system with no file in it, and a stand-in for the parser that
    makes one paragraph of the whole source. *)
Definition noFiles : string -> option string * option string :=
  fun _ => (None, Some "no such file").
Definition flatParse : option string -> Tree :=
  fun src => Container Document
               [Container Paragraph [Leaf (Text (default empty src))]].

(** A list item holding one paragraph of text, as the parser builds it. *)
Definition item (flags : Z) (t : string) : Tree :=
  Container (ListItem flags empty) [Container Paragraph [Leaf (Text t)]].

(** A document that is one ordered list of three items. *)
Definition orderedList3 : Tree :=
  Container Document
    [Container (List ListTypeOrdered)
       [item (Z.lor ListTypeOrdered ListItemBeginningOfList) "a";
        item ListTypeOrdered "b";
        item (Z.lor ListTypeOrdered ListItemEndOfList) "c"]].

(** The same list with items that have no children. *)
Definition bareItem (flags : Z) : Tree := Container (ListItem flags empty) [].

Definition bareOrderedList3 : Tree :=
  Container Document
    [Container (List ListTypeOrdered)
       [bareItem ListTypeOrdered; bareItem ListTypeOrdered;
        bareItem (Z.lor ListTypeOrdered ListItemEndOfList)]].

(** A document that is one paragraph. *)
Definition oneParagraph (t : string) : Tree :=
  Container Document [Container Paragraph [Leaf (Text t)]].

(** The pieces of a list of strings, one after the other. *)
Definition concatAll (ls : list string) : string :=
  fold_right String.append empty ls.

(** The lines of a list of strings, each ended by a newline. *)
Definition unlines (ls : list string) : string :=
  concatAll (map (fun l => l +:+ nl) ls).

(** Predicates on byte sequences used to state what the helpers produce. *)
Fixpoint allBytes (p : ascii -> bool) (s : string) : bool :=
  match s with
  | EmptyString => true
  | String c s' => p c && allBytes p s'
  end.

(** A newline, a carriage return or a tab. *)
Definition isBreakOrTab (c : ascii) : bool :=
  Ascii.eqb c LF || Ascii.eqb c CR || Ascii.eqb c TAB.

(** Two spaces stand next to each other somewhere in [s]. *)
Fixpoint adjacentSpaces (s : string) : bool :=
  match s with
  | EmptyString => false
  | String a t =>
      match t with
      | EmptyString => false
      | String b _ => (Ascii.eqb a SP && Ascii.eqb b SP) || adjacentSpaces t
      end
  end.

Definition isBackslash (c : ascii) : bool := Ascii.eqb c "\"%char.

(** The receiver with other options, everything else as it is. *)
Definition set_opts (o : Options) (r : Renderer) : Renderer :=
  mkRenderer (orderedListCounter r) (paragraph r) (listDepth r)
             (lastNormalText r) (lastOutputLen r) o.

Definition mapOpts (g : Options -> Options) : Act :=
  modR (fun r => set_opts (g (opts r)) r).

(** A routine does the same whatever [g] does to the options. *)
Definition commutes (g : Options -> Options) (a : Act) : Prop :=
  forall s, a (mapOpts g s) = mapOpts g (a s).

(** A hook that declines every node and writes nothing. *)
Definition declines (hook : RenderNodeFunc) : Prop :=
  forall node entering, exists status,
    hook node entering = (empty, (status, false)).

Definition withHook (h : option RenderNodeFunc) (o : Options) : Options :=
  mkOptions (Terminal o) h.

Definition withTerminal (b : bool) (o : Options) : Options :=
  mkOptions b (RenderNodeHook o).

(** A hook that declines every node, as a sample. *)
Definition decliningHook : RenderNodeFunc :=
  fun _ _ => (empty, (GoToNext, false)).

(** The texts a visit of [node] hands to the formatter, and those the walk
    of a tree without hook hands to it, in order: a leaf is visited once, a
    container before and after its children. *)
Definition formatterCall (node : Node) : list string :=
  match node with
  | CodeBlock info lit => if oneOf info ["Go"; "go"] then [lit] else []
  | _ => []
  end.

Fixpoint formatterCalls (t : Tree) : list string :=
  match t with
  | Leaf n => formatterCall n
  | Container n cs =>
      formatterCall n
      ++ (fix children (l : list Tree) : list string :=
            match l with
            | [] => []
            | c :: l' => formatterCalls c ++ children l'
            end) cs
      ++ formatterCall n
  end.

Fixpoint formatterCallsOfList (cs : list Tree) : list string :=
  match cs with
  | [] => []
  | c :: cs' => formatterCalls c ++ formatterCallsOfList cs'
  end.

(** A routine makes no call of the formatter. *)
Definition keepsLog (a : Act) : Prop :=
  forall s, gofmtCalls (a s) = gofmtCalls s.

(** ** Properties *)

(** *** Byte sequences *)

Lemma append_cons (a : ascii) (s t : string) :
  String a s +:+ t = String a (s +:+ t).
Proof. reflexivity. Qed.

Lemma append_empty_l (s : string) : empty +:+ s = s.
Proof. reflexivity. Qed.

Lemma append_empty_r (s : string) : s +:+ empty = s.
Proof.
  induction s as [|a s IH]; [reflexivity|].
  rewrite append_cons, IH. reflexivity.
Qed.

Lemma append_assoc (s t u : string) : (s +:+ t) +:+ u = s +:+ (t +:+ u).
Proof.
  induction s as [|a s IH]; [reflexivity|].
  rewrite !append_cons, IH. reflexivity.
Qed.

Lemma length_append (s t : string) :
  String.length (s +:+ t) = (String.length s + String.length t)%nat.
Proof.
  induction s as [|a s IH]; [reflexivity|].
  rewrite append_cons. simpl. rewrite IH. reflexivity.
Qed.

Lemma append_cancel_l (s t u : string) : s +:+ t = s +:+ u -> t = u.
Proof.
  induction s as [|a s IH]; [auto|].
  rewrite !append_cons. intros H. injection H as H. auto.
Qed.

(** *** The primitive writes *)

Lemma wr_Write (d : string) (s : State) : wr (Write d s) = wr s +:+ d.
Proof. reflexivity. Qed.

Lemma wr_modR (f : Renderer -> Renderer) (s : State) : wr (modR f s) = wr s.
Proof. reflexivity. Qed.

Lemma wr_outs (d : string) (s : State) : wr (outs d s) = wr s +:+ d.
Proof. reflexivity. Qed.

Lemma wr_out (d : string) (s : State) : wr (out d s) = wr s +:+ d.
Proof. reflexivity. Qed.

Lemma andThen_apply (a b : Act) (s : State) : (a >>> b) s = b (a s).
Proof. reflexivity. Qed.

(** *** Observations of the receiver that the emission routines keep *)

Section Frame.

Context {A : Type} (f : Renderer -> A).
Hypothesis f_counter : forall m r, f (set_orderedListCounter m r) = f r.
Hypothesis f_paragraph : forall m r, f (set_paragraph m r) = f r.
Hypothesis f_lastNormalText : forall t r, f (set_lastNormalText t r) = f r.
Hypothesis f_lastOutputLen : forall n r, f (set_lastOutputLen n r) = f r.

Lemma keeps_skip : keeps f skip.
Proof. intros s. reflexivity. Qed.

Lemma keeps_andThen (a b : Act) : keeps f a -> keeps f b -> keeps f (a >>> b).
Proof. intros Ha Hb s. unfold andThen. rewrite Hb, Ha. reflexivity. Qed.

Lemma keeps_if (c : bool) (a b : Act) :
  keeps f a -> keeps f b -> keeps f (if c then a else b).
Proof. destruct c; auto. Qed.

Lemma keeps_Write (d : string) : keeps f (Write d).
Proof. intros s. reflexivity. Qed.

Lemma keeps_outs (d : string) : keeps f (outs d).
Proof. intros s. unfold outs, andThen, modR, Write. simpl. apply f_lastOutputLen. Qed.

Lemma keeps_out (d : string) : keeps f (out d).
Proof. exact (keeps_outs d). Qed.

Lemma keeps_cr : keeps f cr.
Proof.
  intros s. unfold cr. destruct (0 <? lastOutputLen (rd s)); [|reflexivity].
  apply keeps_outs.
Qed.

Lemma keeps_doubleSpace : keeps f doubleSpace.
Proof. apply keeps_outs. Qed.

Lemma keeps_set_counter (g : Renderer -> gmap Z Z) :
  keeps f (modR (fun r => set_orderedListCounter (g r) r)).
Proof. intros s. apply f_counter. Qed.

Lemma keeps_set_paragraph (g : Renderer -> gmap Z bool) :
  keeps f (modR (fun r => set_paragraph (g r) r)).
Proof. intros s. apply f_paragraph. Qed.

Ltac frame :=
  repeat first
    [ apply keeps_skip | apply keeps_outs | apply keeps_out | apply keeps_Write
    | apply keeps_cr | apply keeps_doubleSpace | apply keeps_set_counter
    | apply keeps_set_paragraph
    | match goal with
      | |- keeps _ (_ >>> _) => apply keeps_andThen
      | |- keeps _ (if _ then _ else _) => apply keeps_if
      end ].

Lemma keeps_listItem (flags : Z) (lit : string) : keeps f (listItem flags lit).
Proof.
  unfold listItem. frame; intros s; try reflexivity.
  destruct (paragraphAt (rd s) (listDepth (rd s))); [|reflexivity].
  revert s. change (keeps f
    ((if Z.land flags ListItemEndOfList =? 0 then outs nl else skip) >>>
     modR (fun r => set_paragraph (<[listDepth r := false]> (paragraph r)) r))).
  frame.
Qed.

Lemma keeps_horizontalRule : keeps f horizontalRule.
Proof. unfold horizontalRule. frame. Qed.

Lemma keeps_heading (level : Z) : keeps f (heading level).
Proof. unfold heading. frame. Qed.

Lemma keeps_htmlSpan (lit : string) : keeps f (htmlSpan lit).
Proof. unfold htmlSpan. frame. Qed.

Lemma keeps_htmlBlock (lit : string) : keeps f (htmlBlock lit).
Proof. unfold htmlBlock. frame. Qed.

Lemma keeps_doParagraph : keeps f doParagraph.
Proof. unfold doParagraph. frame. Qed.

Lemma keeps_code (lit : string) : keeps f (code lit).
Proof. unfold code. frame. Qed.

Lemma keeps_image (dest title : string) : keeps f (image dest title).
Proof. unfold image. frame. Qed.

Lemma keeps_link (dest title lit : string) : keeps f (link dest title lit).
Proof. unfold link. frame. Qed.

Lemma keeps_quoteLoop (n i : Z) (lines : list string) :
  keeps f (quoteLoop n i lines).
Proof.
  revert i. induction lines as [|line lines IH]; intros i; simpl.
  - frame.
  - frame. apply IH.
Qed.

Lemma keeps_blockQuote (lit : string) : keeps f (blockQuote lit).
Proof.
  unfold blockQuote. frame. apply keeps_quoteLoop.
Qed.

Lemma keeps_del (lit : string) : keeps f (del lit).
Proof. unfold del. frame. Qed.

Lemma keeps_strong (lit : string) : keeps f (strong lit).
Proof.
  intros s. unfold strong.
  generalize (Terminal (opts (rd s))). intros terminal. revert s.
  change (keeps f
    ((if terminal then outs (ESC +:+ "[1m") else skip) >>>
     outs "**" >>> out lit >>> outs "**" >>>
     (if terminal then outs (ESC +:+ "[0m") else skip))).
  frame.
Qed.

Lemma keeps_emphasis (lit : string) : keeps f (emphasis lit).
Proof. unfold emphasis. frame. Qed.

Lemma keeps_text (lit : string) : keeps f (text lit).
Proof.
  intros s. unfold text.
  set (l := if needsEscaping lit (lastNormalText (rd s)) then _ else _).
  set (s1 := modR (set_lastNormalText lit) s).
  assert (H1 : f (rd s1) = f (rd s)) by apply f_lastNormalText.
  destruct ((0 <? listDepth (rd s1)) && String.eqb l nl); [exact H1|].
  destruct (String.eqb (cleanWithoutTrim l) empty); [exact H1|].
  rewrite keeps_outs. exact H1.
Qed.

Variable format_Source : string -> option string.

Lemma keeps_langLoop (elts : list string) (s : State) :
  f (rd (fst (langLoop elts s))) = f (rd s).
Proof.
  induction elts as [|elt elts IH]; cbn [langLoop]; [reflexivity|].
  match goal with |- context [len ?e =? 0] => destruct (len e =? 0) end.
  - exact IH.
  - cbn [fst]. unfold andThen. rewrite !keeps_outs. reflexivity.
Qed.

Lemma keeps_formatCode (lang lit : string) (s : State) :
  f (rd (snd (formatCode format_Source lang lit s))) = f (rd s).
Proof.
  unfold formatCode. destruct (oneOf lang ["Go"; "go"]); [|reflexivity].
  destruct (format_Source lit); reflexivity.
Qed.

Lemma keeps_codeBlock (info lit : string) :
  keeps f (codeBlock format_Source info lit).
Proof.
  intros s. unfold codeBlock.
  pose proof (keeps_langLoop (Fields info) (doubleSpace s)) as HL.
  destruct (langLoop (Fields info) (doubleSpace s)) as [s1 count].
  cbn [fst] in HL. rewrite keeps_doubleSpace in HL.
  set (s2 := outs nl (if count =? 0 then outs FENCE s1 else s1)).
  assert (H2 : f (rd s2) = f (rd s)).
  { unfold s2. rewrite keeps_outs. destruct (count =? 0); [|exact HL].
    rewrite keeps_outs. exact HL. }
  pose proof (keeps_formatCode info lit s2) as HF.
  destruct (formatCode format_Source info lit s2) as [res s3]. cbn [snd] in HF.
  rewrite keeps_outs. destruct res; rewrite keeps_out; congruence.
Qed.

(** Every case of the type switch but [List] keeps [f]. *)
Lemma keeps_dispatch (node : Node) :
  (forall flags, node <> List flags) ->
  keeps f (dispatch format_Source node).
Proof.
  intros HnotList. destruct node; simpl;
    first [ apply keeps_text | apply keeps_cr | apply keeps_outs
          | apply keeps_emphasis | apply keeps_strong | apply keeps_del
          | apply keeps_blockQuote | apply keeps_link | apply keeps_image
          | apply keeps_code | apply keeps_codeBlock | apply keeps_skip
          | apply keeps_doParagraph | apply keeps_htmlSpan
          | apply keeps_htmlBlock | apply keeps_heading
          | apply keeps_horizontalRule | apply keeps_listItem
          | idtac ].
  exfalso. eapply HnotList. reflexivity.
Qed.

End Frame.

(** *** The options and the list depth across a call *)

Section Dispatch.

Variable format_Source : string -> option string.

Lemma wrap_small (z : Z) : is_int z -> wrap z = z.
Proof.
  unfold is_int, wrap. intros H.
  rewrite Z.mod_small; lia.
Qed.

Lemma decr_incr (d : Z) : is_int d -> decr (incr d) = d.
Proof.
  unfold is_int, decr, incr, wrap.
  change (2 ^ 63) with 9223372036854775808.
  change (2 ^ 64) with 18446744073709551616.
  intros H.
  destruct (Z.eq_dec d 9223372036854775807) as [->|Hne]; [reflexivity|].
  rewrite (Z.mod_small (d + 1 + 9223372036854775808)) by lia.
  replace (d + 1 + 9223372036854775808 - 9223372036854775808 - 1
           + 9223372036854775808) with (d + 9223372036854775808) by lia.
  rewrite Z.mod_small by lia. lia.
Qed.

Lemma list_opts (flags : Z) : keeps opts (list_ flags).
Proof.
  intros s. unfold list_, andThen.
  destruct (negb (Z.land flags ListTypeOrdered =? 0)); reflexivity.
Qed.

(** [list] returns with the depth it was called with: the increment and the
    deferred decrement both happen inside the one call. *)
Lemma list_listDepth (flags : Z) (s : State) :
  is_int (listDepth (rd s)) ->
  listDepth (rd (list_ flags s)) = listDepth (rd s).
Proof.
  intros H. unfold list_, andThen.
  destruct (negb (Z.land flags ListTypeOrdered =? 0)); simpl;
    apply decr_incr; exact H.
Qed.

Lemma dispatch_opts (node : Node) : keeps opts (dispatch format_Source node).
Proof.
  destruct node;
    try (apply keeps_dispatch; [reflexivity..|discriminate]).
  apply list_opts.
Qed.

Lemma dispatch_listDepth (node : Node) (s : State) :
  is_int (listDepth (rd s)) ->
  listDepth (rd (dispatch format_Source node s)) = listDepth (rd s).
Proof.
  intros H. destruct node;
    try (apply keeps_dispatch; [reflexivity..|discriminate]).
  apply list_listDepth. exact H.
Qed.

Lemma RenderNode_no_hook (node : Node) (entering : bool) (s : State) :
  RenderNodeHook (opts (rd s)) = None ->
  RenderNode format_Source node entering s
  = (GoToNext, dispatch format_Source node s).
Proof. intros H. unfold RenderNode. rewrite H. reflexivity. Qed.

(** The walk of a container, with the loop over its children by name. *)
Lemma Walk_Container (n : Node) (cs : list Tree) (s : State) :
  Walk format_Source (Container n cs) s =
  let (status, s1) := RenderNode format_Source n true s in
  match status with
  | Terminate => (Terminate, snd (RenderNode format_Source n false s1))
  | _ =>
      let (st, s2) :=
        match status with
        | SkipChildren => (GoToNext, s1)
        | _ => WalkChildren format_Source cs s1
        end in
      match st with
      | Terminate => (Terminate, s2)
      | _ =>
          let (st', s3) := RenderNode format_Source n false s2 in
          match st' with
          | Terminate => (Terminate, s3)
          | _ => (GoToNext, s3)
          end
      end
  end.
Proof. reflexivity. Qed.

(** Without a hook the walk never stops early and never touches the options. *)
Lemma Walk_no_hook (t : Tree) :
  forall s, RenderNodeHook (opts (rd s)) = None ->
    fst (Walk format_Source t s) = GoToNext /\
    opts (rd (snd (Walk format_Source t s))) = opts (rd s).
Proof.
  induction t as [n|n cs IH] using Tree_ind; intros s H.
  - cbn [Walk]. rewrite RenderNode_no_hook by exact H. cbn [fst snd].
    split; [reflexivity|apply dispatch_opts].
  - rewrite Walk_Container. rewrite RenderNode_no_hook by exact H.
    assert (Hcs : forall s', RenderNodeHook (opts (rd s')) = None ->
              fst (WalkChildren format_Source cs s') = GoToNext /\
              opts (rd (snd (WalkChildren format_Source cs s'))) = opts (rd s')).
    { induction IH as [|c cs' Hc _ IHcs]; intros s' H'.
      - split; reflexivity.
      - cbn [WalkChildren]. destruct (Hc s' H') as [Hst Hopts].
        destruct (Walk format_Source c s') as [st s1]. cbn [fst snd] in *. subst st.
        destruct (IHcs s1) as [Hst' Hopts']; [congruence|].
        split; [exact Hst'|congruence]. }
    assert (H1 : RenderNodeHook (opts (rd (dispatch format_Source n s))) = None)
      by (rewrite dispatch_opts; exact H).
    destruct (Hcs _ H1) as [Hst Hopts].
    destruct (WalkChildren format_Source cs (dispatch format_Source n s))
      as [st s2]. cbn [fst snd] in *. subst st.
    rewrite RenderNode_no_hook by congruence. cbn [fst snd].
    split; [reflexivity|].
    rewrite dispatch_opts, Hopts. apply dispatch_opts.
Qed.

Lemma WalkChildren_no_hook (cs : list Tree) :
  forall s, RenderNodeHook (opts (rd s)) = None ->
    fst (WalkChildren format_Source cs s) = GoToNext /\
    opts (rd (snd (WalkChildren format_Source cs s))) = opts (rd s).
Proof.
  induction cs as [|c cs IH]; intros s H.
  - split; reflexivity.
  - cbn [WalkChildren]. destruct (Walk_no_hook c s H) as [Hst Hopts].
    destruct (Walk format_Source c s) as [st s1]. cbn [fst snd] in *. subst st.
    destruct (IH s1) as [Hst' Hopts']; [congruence|].
    split; [exact Hst'|congruence].
Qed.

End Dispatch.

(** *** The dispatcher and the direction of a visit *)



(** *** Lists *)

(** C1, evaluated.  On a new renderer, an ordered list of three items is
    rendered with the markers [0.] to [5.]: [list] has put the depth back
    before the items are visited, so the items read the counter of depth 0,
    which nothing set to 1 (the counter set to 1 is the one of depth 1), and
    each item is emitted on the entering and on the leaving visit. *)
Theorem ordered_list_of_three_markers (format_Source : string -> option string) :
  let entered := dispatch format_Source (List ListTypeOrdered) fresh in
  (counterAt (rd entered) 1 = 1 /\
   listDepth (rd entered) = 0 /\
   counterAt (rd entered) (listDepth (rd entered)) = 0) /\
  wr (RenderState format_Source bareOrderedList3 (NewRenderer None))
  = unlines [empty; "0."; "1."; "2."; "3."; "4."; "5."; empty] /\
  wr (RenderState format_Source orderedList3 (NewRenderer None))
  = unlines [empty; "0."; empty; empty; "a"; empty; "1."; empty;
             "2."; empty; empty; "b"; empty; "3."; empty;
             "4."; empty; empty; "c"; empty; "5."; empty].
Proof. vm_compute. repeat split; reflexivity. Qed.

(** C2, evaluated.  Entering a list on a new renderer leaves [listDepth] at
    0, the value outside the list: the children of the list are rendered at
    that depth, and a newline text inside the list is written (as a space)
    rather than dropped, as it would be at a depth above 0. *)
Theorem listDepth_inside_list_is_outer_depth
  (format_Source : string -> option string) :
  let entered := snd (RenderNode format_Source (List ListTypeOrdered) true fresh) in
  let child := bareItem ListTypeOrdered in
  listDepth (rd fresh) = 0 /\
  listDepth (rd entered) = 0 /\
  Walk format_Source (Container (List ListTypeOrdered) [child]) fresh
  = RenderNode format_Source (List ListTypeOrdered) false
      (snd (Walk format_Source child entered)) /\
  listDepth (rd (snd (RenderNode format_Source (ListItem ListTypeOrdered empty)
                        true entered))) = 0 /\
  wr (text nl entered) = wr entered +:+ " ".
Proof. vm_compute. repeat split; reflexivity. Qed.

(** *** Block spacing *)

(** C4, evaluated.  On a new renderer, where nothing has been written and
    [lastOutputLen] is 0, each block-level routine starts by writing a
    newline; a document that is one paragraph renders with a leading blank
    line. *)
Theorem blocks_write_leading_newline_first
  (format_Source : string -> option string) :
  (lastOutputLen (rd fresh) = 0 /\ wr fresh = empty) /\
  wr (dispatch format_Source Paragraph fresh) = nl +:+ nl /\
  wr (dispatch format_Source (Heading 3) fresh) = nl +:+ "### " /\
  wr (dispatch format_Source HorizontalRule fresh) = nl +:+ "---" +:+ nl /\
  wr (dispatch format_Source (BlockQuote ("q" +:+ nl)) fresh)
  = nl +:+ "> q" +:+ nl /\
  wr (dispatch format_Source (HTMLBlock "<p>") fresh) = nl +:+ "<p>" +:+ nl /\
  wr (dispatch format_Source (CodeBlock empty ("x" +:+ nl)) fresh)
  = nl +:+ FENCE +:+ nl +:+ "x" +:+ nl +:+ FENCE +:+ nl /\
  wr (dispatch format_Source (List 0) fresh) = nl /\
  Render format_Source (oneParagraph "a") (NewRenderer None)
  = Some (nl +:+ nl +:+ "a" +:+ nl +:+ nl).
Proof. vm_compute. repeat split; reflexivity. Qed.

(** *** Text *)

(** C10.  A renderer just made has an empty [lastNormalText]; [isNumber]
    holds of the empty fragment; so a first text that is exactly a period
    is written with a backslash before it. *)
Theorem first_period_is_escaped (o : option Options) :
  lastNormalText (NewRenderer o) = empty /\
  isNumber empty = true /\
  needsEscaping "." (lastNormalText (NewRenderer o)) = true /\
  wr (text "." (start o)) = "\.".
Proof. repeat split; reflexivity. Qed.

Lemma oneOf_In (t : string) (cases : list string) :
  oneOf t cases = true <-> In t cases.
Proof.
  unfold oneOf. rewrite existsb_exists. split.
  - intros [x [Hin Heq]]. apply String.eqb_eq in Heq. subst x. exact Hin.
  - intros Hin. exists t. split; [exact Hin|apply String.eqb_refl].
Qed.

Lemma oneOf_not_In (t : string) (cases : list string) :
  oneOf t cases = false <-> ~ In t cases.
Proof.
  rewrite <- oneOf_In. destruct (oneOf t cases); split; congruence.
Qed.

Lemma notDigit_isDigit (b : ascii) : notDigit b = false <-> isDigit b.
Proof.
  unfold notDigit, isDigit. rewrite orb_false_iff, !N.ltb_ge. reflexivity.
Qed.

(** [isNumber] decides "entirely ASCII digits" (the empty fragment included). *)
Lemma isNumber_allDigits (data : string) : isNumber data = true <-> allDigits data.
Proof.
  unfold allDigits. induction data as [|b data IH]; simpl.
  - split; [constructor|reflexivity].
  - destruct (notDigit b) eqn:E.
    + split; [discriminate|]. intros H. inversion H as [|? ? Hb _]; subst.
      apply notDigit_isDigit in Hb. congruence.
    + rewrite IH. apply notDigit_isDigit in E. split.
      * intros H. constructor; assumption.
      * intros H. inversion H; assumption.
Qed.

(** [needsEscaping] is the escaping policy of the specification. *)
Lemma needsEscaping_spec (lit prev : string) :
  needsEscaping lit prev = true <-> escapeRequired lit prev.
Proof.
  unfold needsEscaping, escapeRequired.
  destruct (oneOf lit ["\"; "`"; "*"; "_"; "{"; "}"; "["; "]"; "("; ")"; "#"; "+"; "-"])
    eqn:E1.
  { apply oneOf_In in E1. split; [intros _; left|reflexivity].
    unfold structuralCharacters. simpl in *. tauto. }
  apply oneOf_not_In in E1.
  destruct (oneOf lit ["!"]) eqn:E2.
  { apply oneOf_In in E2. destruct E2 as [<-|[]].
    split; [discriminate|]. unfold structuralCharacters. simpl.
    intros [H|[H _]]; [|discriminate H].
    repeat (destruct H as [H|H]; [discriminate H|]). destruct H. }
  apply oneOf_not_In in E2.
  destruct (oneOf lit ["."]) eqn:E3.
  { apply oneOf_In in E3. destruct E3 as [<-|[]].
    rewrite isNumber_allDigits. split; [intros H; right; auto|].
    unfold structuralCharacters. simpl.
    intros [H|[_ H]]; [|exact H].
    repeat (destruct H as [H|H]; [discriminate H|]). destruct H. }
  apply oneOf_not_In in E3.
  destruct (oneOf lit ["<"; ">"]) eqn:E4.
  { apply oneOf_In in E4. split; [intros _; left|reflexivity].
    unfold structuralCharacters. simpl in *. tauto. }
  apply oneOf_not_In in E4.
  split; [discriminate|].
  unfold structuralCharacters. simpl in *. intros [H|[H _]]; [tauto|].
  subst lit. tauto.
Qed.

Lemma length_cleanLoop (p : ascii) (s : string) :
  (String.length (cleanLoop p s) <= String.length s)%nat.
Proof.
  revert p. induction s as [|q0 s IH]; intros p; simpl; [lia|].
  match goal with |- context [if ?c then _ else _] => destruct c end.
  - simpl. specialize (IH (if Ascii.eqb q0 LF || Ascii.eqb q0 CR || Ascii.eqb q0 TAB
                           then SP else q0)). lia.
  - specialize (IH p). lia.
Qed.

Lemma skipSpace_false (cleanString : string) :
  skipSpaceIfNeededNormalText cleanString = false.
Proof.
  destruct cleanString as [|c t]; [reflexivity|]. simpl.
  destruct (negb (Ascii.eqb c SP)); reflexivity.
Qed.

(** What [text] writes when the fragment is not escaped. *)
Lemma text_wr_unescaped (lit : string) (s : State) :
  needsEscaping lit (lastNormalText (rd s)) = false ->
  wr (text lit s)
  = wr s +:+ (if (0 <? listDepth (rd s)) && String.eqb lit nl
              then empty else cleanWithoutTrim lit).
Proof.
  intros H. unfold text. rewrite H.
  change (listDepth (rd (modR (set_lastNormalText lit) s)))
    with (listDepth (rd s)).
  destruct ((0 <? listDepth (rd s)) && String.eqb lit nl).
  - rewrite append_empty_r. reflexivity.
  - destruct (String.eqb (cleanWithoutTrim lit) empty) eqn:E.
    + apply String.eqb_eq in E. rewrite E, append_empty_r. reflexivity.
    + rewrite skipSpace_false. reflexivity.
Qed.

(** What [text] writes when the fragment is escaped. *)
Lemma text_wr_escaped (lit : string) (s : State) :
  needsEscaping lit (lastNormalText (rd s)) = true ->
  wr (text lit s) = wr s +:+ BACKSLASH +:+ lit.
Proof.
  intros H. unfold text. rewrite H.
  assert (Hlit : In lit (structuralCharacters ++ ["."])).
  { apply needsEscaping_spec in H. apply in_or_app.
    destruct H as [H|[-> _]]; [left; exact H|right; left; reflexivity]. }
  clear H. unfold structuralCharacters in Hlit. simpl in Hlit.
  repeat (destruct Hlit as [<-|Hlit];
          [rewrite andb_false_r; reflexivity|]).
  destruct Hlit.
Qed.

Lemma text_lastNormalText (lit : string) (s : State) :
  lastNormalText (rd (text lit s)) = lit.
Proof.
  unfold text.
  destruct (needsEscaping lit (lastNormalText (rd s)));
    match goal with |- context [if ?c then _ else _] => destruct c end;
    try reflexivity;
    match goal with |- context [if ?c then _ else _] => destruct c end;
    reflexivity.
Qed.

(** A fragment that is not escaped is never written as backslash-fragment:
    what is written is no longer than the fragment. *)
Lemma text_leading_backslash_only_if_escaped (lit : string) (s : State) :
  wr (text lit s) = wr s +:+ BACKSLASH +:+ lit ->
  needsEscaping lit (lastNormalText (rd s)) = true.
Proof.
  intros H. destruct (needsEscaping lit (lastNormalText (rd s))) eqn:E;
    [reflexivity|exfalso].
  rewrite (text_wr_unescaped lit s E) in H. apply append_cancel_l in H.
  apply (f_equal String.length) in H. rewrite length_append in H.
  change (String.length BACKSLASH) with 1%nat in H.
  destruct ((0 <? listDepth (rd s)) && String.eqb lit nl).
  - simpl in H. lia.
  - pose proof (length_cleanLoop NUL lit) as Hlen.
    unfold cleanWithoutTrim in H. lia.
Qed.

(** C5.  [text] writes the fragment with one backslash before it exactly
    when the fragment as a whole is one of the structural characters, or is
    a period and the text fragment before it was all ASCII digits.  An
    exclamation mark is written as it is.  Every other fragment (each
    fragment of two bytes or more among them) is written without a
    backslash: its bytes with white space collapsed, or nothing for a
    newline inside a list.  The fragment, as it came, becomes the "fragment
    before" of the next one. *)
Theorem text_escaped_exactly_when_required (lit : string) (s : State) :
  let prev := lastNormalText (rd s) in
  let plain := if (0 <? listDepth (rd s)) && String.eqb lit nl
               then empty else cleanWithoutTrim lit in
  (wr (text lit s) = wr s +:+ BACKSLASH +:+ lit <-> escapeRequired lit prev) /\
  (wr (text "." s) = wr s +:+ BACKSLASH +:+ "." <-> allDigits prev) /\
  wr (text "!" s) = wr s +:+ "!" /\
  (~ escapeRequired lit prev -> wr (text lit s) = wr s +:+ plain) /\
  ((2 <= String.length lit)%nat ->
   ~ escapeRequired lit prev /\ wr (text lit s) = wr s +:+ plain) /\
  lastNormalText (rd (text lit s)) = lit.
Proof.
  intros prev plain.
  assert (Hiff : forall l, wr (text l s) = wr s +:+ BACKSLASH +:+ l
                           <-> escapeRequired l prev).
  { intros l. rewrite <- needsEscaping_spec. split.
    - apply text_leading_backslash_only_if_escaped.
    - apply text_wr_escaped. }
  assert (Hplain : ~ escapeRequired lit prev -> wr (text lit s) = wr s +:+ plain).
  { intros Hn. apply text_wr_unescaped.
    destruct (needsEscaping lit (lastNormalText (rd s))) eqn:E; [|reflexivity].
    exfalso. apply Hn. apply needsEscaping_spec. exact E. }
  split; [apply Hiff|]. split.
  { rewrite Hiff. unfold escapeRequired, structuralCharacters. simpl. split.
    - intros [H|[_ H]]; [|exact H].
      repeat (destruct H as [H|H]; [discriminate H|]). destruct H.
    - intros H. right. split; [reflexivity|exact H]. }
  split.
  { rewrite (text_wr_unescaped "!" s) by reflexivity.
    rewrite andb_false_r. reflexivity. }
  split; [exact Hplain|]. split; [|apply text_lastNormalText].
  intros Hlen.
  assert (Hn : ~ escapeRequired lit prev).
  { unfold escapeRequired, structuralCharacters. simpl.
    intros [H|[H _]].
    - repeat (destruct H as [H|H]; [subst lit; simpl in Hlen; lia|]).
      destruct H.
    - subst lit. simpl in Hlen. lia. }
  split; [exact Hn|apply Hplain; exact Hn].
Qed.

(** C5 on a fragment of two bytes, and on the fragments of [5\.x]. *)
Lemma text_escaped_exactly_when_required_witness :
  ((2 <= String.length "a*")%nat /\
   ~ escapeRequired "a*" (lastNormalText (rd fresh)) /\
   wr (text "a*" fresh) = wr fresh +:+ "a*") /\
  wr (text "x" (text "." (text "5" fresh))) = "5\.x".
Proof.
  split; [|reflexivity].
  split; [simpl; lia|].
  exact (proj1 (proj2 (proj2 (proj2 (proj2
           (text_escaped_exactly_when_required "a*" fresh)))))
         ltac:(simpl; lia)).
Defined.

(** *** Code blocks *)

Lemma len_zero (t : string) : (len t =? 0) = String.eqb t empty.
Proof. destruct t; reflexivity. Qed.

(** The loop of [codeBlock] writes the fence and the tag of the
    specification, when there is one. *)
Lemma langLoop_filter (elts : list string) (s : State) :
  langLoop elts s
  = match List.filter (fun t => negb (String.eqb t empty))
                      (map stripDot elts) with
    | [] => (s, 0)
    | tag :: _ => ((outs FENCE >>> outs tag) s, 1)
    end.
Proof.
  induction elts as [|elt elts IH]; [reflexivity|].
  cbn [langLoop map List.filter]. fold (stripDot elt).
  rewrite len_zero. destruct (String.eqb (stripDot elt) empty); cbn [negb].
  - exact IH.
  - reflexivity.
Qed.


Lemma gofmtCalls_langLoop (elts : list string) (s : State) :
  gofmtCalls (fst (langLoop elts s)) = gofmtCalls s.
Proof.
  rewrite langLoop_filter.
  destruct (List.filter _ (map stripDot elts)); reflexivity.
Qed.




(** *** Block quotes *)

Lemma Split_not_nil (sep : ascii) (s : string) : Split sep s <> [].
Proof.
  destruct s as [|c s]; simpl; [discriminate|].
  destruct (Ascii.eqb c sep); [discriminate|].
  destruct (Split sep s); discriminate.
Qed.

(** A final separator gives a final empty piece. *)
Lemma Split_terminated (sep : ascii) (body : string) :
  Split sep (body +:+ String sep EmptyString) = Split sep body ++ [empty].
Proof.
  induction body as [|c body IH].
  - simpl. rewrite Ascii.eqb_refl. reflexivity.
  - rewrite append_cons. simpl. destruct (Ascii.eqb c sep).
    + rewrite IH. reflexivity.
    + rewrite IH. pose proof (Split_not_nil sep body) as Hne.
      destruct (Split sep body) as [|l ls]; [congruence|reflexivity].
Qed.

Lemma wr_quoted_line (line : string) (s : State) :
  wr ((outs ">" >>>
       (if negb (len line =? 0) then outs " " >>> out line else skip) >>>
       outs nl) s)
  = wr s +:+ quotedLine line.
Proof.
  unfold andThen. rewrite len_zero. destruct line as [|c line].
  - change (String.eqb EmptyString empty) with true. cbn [negb].
    unfold skip, quotedLine. rewrite !wr_outs, append_assoc. reflexivity.
  - change (String.eqb (String c line) empty) with false. cbn [negb].
    rewrite wr_outs, wr_out, !wr_outs. unfold quotedLine.
    rewrite !append_assoc. reflexivity.
Qed.

(** The loop of [blockQuote] writes every line but the one at the last
    index. *)
Lemma wr_quoteLoop (rest : list string) :
  forall (n i : Z) (s : State),
    n = i + Z.of_nat (length rest) ->
    wr (quoteLoop n i rest s)
    = wr s +:+ concatAll (map quotedLine (removelast rest)).
Proof.
  induction rest as [|line rest IH]; intros n i s Hn.
  - simpl. rewrite append_empty_r. reflexivity.
  - cbn [quoteLoop]. rewrite andThen_apply.
    destruct rest as [|line' rest'].
    + replace (i =? n - 1) with true
        by (symmetry; apply Z.eqb_eq; simpl in Hn; lia).
      simpl. rewrite append_empty_r. reflexivity.
    + replace (i =? n - 1) with false
        by (symmetry; apply Z.eqb_neq; cbn [length] in Hn; lia).
      rewrite (IH n (i + 1)) by (cbn [length] in *; lia).
      rewrite wr_quoted_line.
      change (removelast (line :: line' :: rest'))
        with (line :: removelast (line' :: rest')).
      cbn [map concatAll fold_right]. rewrite append_assoc. reflexivity.
Qed.

(** C7, as the code has it.  [blockQuote] writes a newline and then, for
    every piece of the literal split at newlines except the last piece,
    [>] and a space and the piece (a bare [>] for an empty piece) and a
    newline.  The last piece is never written.  When the literal ends with
    a newline the last piece is the empty one after it, and every line of
    the literal is written. *)
Theorem blockQuote_writes_all_but_last_piece
  (lit body : string) (s : State) :
  wr (blockQuote lit s)
  = wr s +:+ nl +:+ concatAll (map quotedLine (removelast (Split LF lit))) /\
  removelast (Split LF (body +:+ nl)) = Split LF body /\
  wr (blockQuote (body +:+ nl) s)
  = wr s +:+ nl +:+ concatAll (map quotedLine (Split LF body)).
Proof.
  assert (H : forall l, wr (blockQuote l s)
              = wr s +:+ nl
                +:+ concatAll (map quotedLine (removelast (Split LF l)))).
  { intros l. unfold blockQuote. rewrite andThen_apply.
    rewrite (wr_quoteLoop (Split LF l) _ 0) by lia.
    unfold doubleSpace. rewrite wr_outs, append_assoc. reflexivity. }
  assert (HS : removelast (Split LF (body +:+ nl)) = Split LF body).
  { unfold nl. rewrite Split_terminated. apply removelast_last. }
  split; [apply H|]. split; [exact HS|]. rewrite H, HS. reflexivity.
Qed.

(** C7 as stated fails on a literal without a final newline: its one line,
    which is not empty, is the last piece of the split and is not written;
    of two lines only the first is. *)
Lemma blockQuote_drops_unterminated_line :
  Split LF "abc" = ["abc"] /\
  wr (blockQuote "abc" fresh) = nl /\
  wr (blockQuote ("a" +:+ nl +:+ "b") fresh) = nl +:+ "> a" +:+ nl.
Proof. vm_compute. repeat split; reflexivity. Qed.

(** *** The entry point *)

(** C8.  [Process] returns an error exactly when no source was passed and
    reading the file gave an error; the error is that of the read, and the
    byte result is then nil.  With a source passed, the file name plays no
    part: the result is the rendering of the parsed source and a nil error. *)
Theorem Process_error_only_from_read
  (format_Source : string -> option string) (error : Type)
  (ReadFile : string -> option string * option error)
  (Parse : option string -> Tree)
  (filename : string) (src : option string) (o : option Options) :
  let result := Process format_Source error ReadFile Parse filename src o in
  (forall e, snd result = Some e <->
             src = None /\ snd (ReadFile filename) = Some e) /\
  (snd result <> None -> fst result = None) /\
  (forall b other,
     Process format_Source error ReadFile Parse filename (Some b) o
     = (Render format_Source (Parse (Some b)) (NewRenderer o), None) /\
     Process format_Source error ReadFile Parse other (Some b) o
     = Process format_Source error ReadFile Parse filename (Some b) o).
Proof.
  intros result. unfold result, Process, readSource.
  split; [|split].
  - intros e. destruct src as [b|].
    + cbn. split; [discriminate|intros [H _]; discriminate H].
    + destruct (ReadFile filename) as [data [e'|]]; cbn.
      * split; [intros H; split; [reflexivity|exact H]|intros [_ H]; exact H].
      * split; [discriminate|intros [_ H]; discriminate H].
  - destruct src as [b|].
    + cbn. congruence.
    + destruct (ReadFile filename) as [data [e'|]]; cbn; congruence.
  - intros b other. split; reflexivity.
Qed.

(** C8 where no source is passed and the file cannot be read, and where a
    source is passed. *)
Lemma Process_error_only_from_read_witness :
  (Process gofmt_rejects string noFiles flatParse "missing.md" None None
   = (None, Some "no such file") /\
   fst (Process gofmt_rejects string noFiles flatParse "missing.md" None None)
   = None) /\
  Process gofmt_rejects string noFiles flatParse "missing.md" (Some "a") None
  = (Some (nl +:+ nl +:+ "a" +:+ nl +:+ nl), None).
Proof.
  split; [split; [reflexivity|]|reflexivity].
  exact (proj1 (proj2
           (Process_error_only_from_read gofmt_rejects string noFiles
              flatParse "missing.md" None None))
         ltac:(discriminate)).
Defined.

(** ** Further properties of the renderer *)

(** *** White-space collapsing *)

Lemma adjacentSpaces_tail (a : ascii) (t : string) :
  adjacentSpaces (String a t) = false -> adjacentSpaces t = false.
Proof.
  destruct t as [|b t]; [reflexivity|]. cbn [adjacentSpaces].
  intros H. apply orb_false_iff in H. exact (proj2 H).
Qed.

Lemma cleanLoop_no_adjacent (s : string) :
  forall p, adjacentSpaces (String p (cleanLoop p s)) = false.
Proof.
  induction s as [|q0 s IH]; intros p; [reflexivity|].
  cbn [cleanLoop].
  set (q := if Ascii.eqb q0 LF || Ascii.eqb q0 CR || Ascii.eqb q0 TAB
            then SP else q0).
  destruct (negb (Ascii.eqb q SP) || negb (Ascii.eqb p SP)) eqn:E.
  - change (adjacentSpaces (String p (String q (cleanLoop q s))))
      with ((Ascii.eqb p SP && Ascii.eqb q SP)
            || adjacentSpaces (String q (cleanLoop q s))).
    rewrite IH, orb_false_r.
    destruct (Ascii.eqb p SP), (Ascii.eqb q SP); try reflexivity.
    discriminate E.
  - apply IH.
Qed.

Lemma cleanLoop_no_break (s : string) :
  forall p, allBytes (fun c => negb (isBreakOrTab c)) (cleanLoop p s) = true.
Proof.
  induction s as [|q0 s IH]; intros p; [reflexivity|].
  cbn [cleanLoop]. fold (isBreakOrTab q0).
  destruct (isBreakOrTab q0) eqn:Eq0.
  - destruct (negb (Ascii.eqb SP SP) || negb (Ascii.eqb p SP)).
    + cbn [allBytes]. rewrite IH. reflexivity.
    + apply IH.
  - destruct (negb (Ascii.eqb q0 SP) || negb (Ascii.eqb p SP)).
    + cbn [allBytes]. rewrite Eq0, IH. reflexivity.
    + apply IH.
Qed.

Lemma cleanLoop_fixed (s : string) :
  forall p,
    allBytes (fun c => negb (isBreakOrTab c)) s = true ->
    adjacentSpaces (String p s) = false ->
    cleanLoop p s = s.
Proof.
  induction s as [|q0 s IH]; intros p Hb Ha; [reflexivity|].
  cbn [allBytes] in Hb. apply andb_true_iff in Hb. destruct Hb as [Hq0 Hb].
  apply negb_true_iff in Hq0.
  cbn [cleanLoop]. fold (isBreakOrTab q0). rewrite Hq0.
  change (adjacentSpaces (String p (String q0 s)))
    with ((Ascii.eqb p SP && Ascii.eqb q0 SP) || adjacentSpaces (String q0 s))
    in Ha.
  apply orb_false_iff in Ha. destruct Ha as [Hpq Ha].
  replace (negb (Ascii.eqb q0 SP) || negb (Ascii.eqb p SP)) with true
    by (destruct (Ascii.eqb p SP), (Ascii.eqb q0 SP);
        try reflexivity; discriminate Hpq).
  rewrite (IH q0 Hb Ha). reflexivity.
Qed.

(** X1.  [cleanWithoutTrim] returns its argument unchanged exactly when the
    argument holds no newline, carriage return or tab and no two spaces in
    a row; its result always is of that kind, so cleaning twice is cleaning
    once. *)
Theorem cleanWithoutTrim_normal_form (s : string) :
  (allBytes (fun c => negb (isBreakOrTab c)) (cleanWithoutTrim s) = true /\
   adjacentSpaces (cleanWithoutTrim s) = false) /\
  (cleanWithoutTrim s = s <->
   allBytes (fun c => negb (isBreakOrTab c)) s = true /\
   adjacentSpaces s = false) /\
  cleanWithoutTrim (cleanWithoutTrim s) = cleanWithoutTrim s.
Proof.
  assert (Hnf : forall t,
            allBytes (fun c => negb (isBreakOrTab c)) (cleanWithoutTrim t) = true /\
            adjacentSpaces (cleanWithoutTrim t) = false).
  { intros t. split; [apply cleanLoop_no_break|].
    apply (adjacentSpaces_tail NUL). apply cleanLoop_no_adjacent. }
  assert (Hfix : forall t,
            allBytes (fun c => negb (isBreakOrTab c)) t = true /\
            adjacentSpaces t = false -> cleanWithoutTrim t = t).
  { intros t [Hb Ha]. apply cleanLoop_fixed; [exact Hb|].
    destruct t as [|b t]; [reflexivity|exact Ha]. }
  split; [apply Hnf|]. split.
  - split; [|apply Hfix]. intros H. rewrite <- H. apply Hnf.
  - apply Hfix. apply Hnf.
Qed.

(** X2.  [cleanWithoutTrim] does not trim: the result is empty only for the
    empty string, a leading white-space byte is kept (as a space), and the
    result is never longer than the argument. *)
Theorem cleanWithoutTrim_keeps_first_byte (s : string) :
  (cleanWithoutTrim s = empty <-> s = empty) /\
  (forall c t, s = String c t ->
     exists t', cleanWithoutTrim s
                = String (if isBreakOrTab c then SP else c) t') /\
  (String.length (cleanWithoutTrim s) <= String.length s)%nat.
Proof.
  split; [|split].
  - destruct s as [|c t]; [split; reflexivity|].
    split; [|discriminate]. unfold cleanWithoutTrim. cbn [cleanLoop].
    change (Ascii.eqb NUL SP) with false. rewrite orb_true_r. discriminate.
  - intros c t ->. unfold cleanWithoutTrim. cbn [cleanLoop].
    change (Ascii.eqb NUL SP) with false. rewrite orb_true_r.
    fold (isBreakOrTab c). eexists. reflexivity.
  - apply length_cleanLoop.
Qed.

(** X2 on a fragment that starts with a tab. *)
Lemma cleanWithoutTrim_keeps_first_byte_witness :
  exists t', cleanWithoutTrim (String TAB "a")
             = String (if isBreakOrTab TAB then SP else TAB) t'.
Proof.
  exact (proj1 (proj2 (cleanWithoutTrim_keeps_first_byte (String TAB "a")))
           TAB "a" eq_refl).
Defined.

(** *** Escaping of link destinations *)

Lemma escape_cons (c : ascii) (s : string) :
  escape (String c s)
  = if isBackslash c then String "\"%char (String "\"%char (escape s))
    else String c (escape s).
Proof. unfold escape, isBackslash. cbn [Replace]. destruct (Ascii.eqb c "\"%char); reflexivity. Qed.

Lemma isBackslash_true (c : ascii) : isBackslash c = true -> c = "\"%char.
Proof. apply Ascii.eqb_eq. Qed.

(** X3.  [escape] loses nothing: two destinations have the same escaped
    form only when they are the same destination. *)
Theorem escape_injective (s t : string) : escape s = escape t <-> s = t.
Proof.
  split; [|intros ->; reflexivity].
  revert t. induction s as [|c s IH]; intros [|d t] H.
  - reflexivity.
  - rewrite escape_cons in H. destruct (isBackslash d); discriminate H.
  - rewrite escape_cons in H. destruct (isBackslash c); discriminate H.
  - rewrite !escape_cons in H.
    destruct (isBackslash c) eqn:Ec, (isBackslash d) eqn:Ed.
    + apply isBackslash_true in Ec, Ed. subst c d.
      injection H as H. f_equal. apply IH. exact H.
    + injection H as Hd _. subst d. discriminate Ed.
    + injection H as Hc _. subst c. discriminate Ec.
    + injection H as Hc H. subst d. f_equal. apply IH. exact H.
Qed.

(** X4.  [escape] leaves a destination as it is exactly when it holds no
    backslash; it adds one byte per backslash and never removes one; and it
    works piece by piece. *)
Theorem escape_only_touches_backslashes (s t : string) :
  (escape s = s <-> allBytes (fun c => negb (isBackslash c)) s = true) /\
  (String.length s <= String.length (escape s))%nat /\
  escape (s +:+ t) = escape s +:+ escape t.
Proof.
  split; [|split].
  - induction s as [|c s IH]; [split; reflexivity|].
    rewrite escape_cons. cbn [allBytes].
    destruct (isBackslash c) eqn:Ec; cbn [negb andb].
    + split; [|discriminate]. intros H. exfalso.
      apply (f_equal String.length) in H. cbn [String.length] in H.
      assert (Hle : (String.length s <= String.length (escape s))%nat).
      { clear. induction s as [|d s IHs]; [cbn; lia|].
        rewrite escape_cons. destruct (isBackslash d); cbn [String.length]; lia. }
      lia.
    + rewrite <- IH. split; [intros H; injection H; auto|intros ->; reflexivity].
  - induction s as [|d s IHs]; [cbn; lia|].
    rewrite escape_cons. destruct (isBackslash d); cbn [String.length]; lia.
  - induction s as [|c s IH]; [reflexivity|].
    rewrite append_cons, !escape_cons, IH.
    destruct (isBackslash c); reflexivity.
Qed.

(** *** Text fragments *)

Lemma cleanWithoutTrim_empty (s : string) :
  cleanWithoutTrim s = empty <-> s = empty.
Proof.
  destruct s as [|c t]; [split; reflexivity|].
  split; [|discriminate]. unfold cleanWithoutTrim. cbn [cleanLoop].
  change (Ascii.eqb NUL SP) with false. rewrite orb_true_r. discriminate.
Qed.

Lemma append_eq_self (s d : string) : s +:+ d = s <-> d = empty.
Proof.
  split.
  - intros H. apply (append_cancel_l s). rewrite append_empty_r. exact H.
  - intros ->. apply append_empty_r.
Qed.

(** X5.  [text] writes nothing exactly when the fragment is empty, or is a
    lone newline while [listDepth] is above 0. *)
Theorem text_silent_iff (lit : string) (s : State) :
  wr (text lit s) = wr s <->
  lit = empty \/ (0 < listDepth (rd s) /\ lit = nl).
Proof.
  destruct (needsEscaping lit (lastNormalText (rd s))) eqn:E.
  - rewrite (text_wr_escaped lit s E), append_eq_self. split.
    + destruct lit; discriminate.
    + intros [->|[_ ->]]; discriminate E.
  - rewrite (text_wr_unescaped lit s E), append_eq_self.
    destruct (0 <? listDepth (rd s)) eqn:Ed; cbn [andb].
    + apply Z.ltb_lt in Ed. destruct (String.eqb_spec lit nl) as [->|Hne].
      * split; [intros _; right; split; [exact Ed|reflexivity]|reflexivity].
      * rewrite cleanWithoutTrim_empty.
        split; [intros H; left; exact H|intros [H|[_ H]]; [exact H|contradiction]].
    + apply Z.ltb_ge in Ed. rewrite cleanWithoutTrim_empty.
      split; [intros H; left; exact H|intros [H|[H _]]; [exact H|lia]].
Qed.

(** X6.  Whatever the fragment, the bytes [text] writes hold no newline,
    carriage return or tab and no two spaces in a row: a line break in the
    output never comes from a text node. *)
Theorem text_writes_no_line_break (lit : string) (s : State) :
  exists d, wr (text lit s) = wr s +:+ d /\
            allBytes (fun c => negb (isBreakOrTab c)) d = true /\
            adjacentSpaces d = false.
Proof.
  destruct (needsEscaping lit (lastNormalText (rd s))) eqn:E.
  - exists (BACKSLASH +:+ lit). split; [apply text_wr_escaped; exact E|].
    assert (Hlit : In lit (structuralCharacters ++ ["."])).
    { apply needsEscaping_spec in E. apply in_or_app.
      destruct E as [H|[-> _]]; [left; exact H|right; left; reflexivity]. }
    unfold structuralCharacters in Hlit. simpl in Hlit.
    repeat (destruct Hlit as [<-|Hlit]; [split; reflexivity|]).
    destruct Hlit.
  - eexists. split; [apply text_wr_unescaped; exact E|].
    destruct ((0 <? listDepth (rd s)) && String.eqb lit nl);
      [split; reflexivity|].
    split; [apply cleanLoop_no_break|].
    apply (adjacentSpaces_tail NUL). apply cleanLoop_no_adjacent.
Qed.

(** *** Soft breaks *)

(** X7.  [cr] looks only at the most recent write made through [out] or
    [outs]: after [out d] it writes a newline exactly when [d] is not
    empty, whatever had been written before. *)
Theorem cr_after_out (d : string) (s : State) :
  wr (cr (out d s))
  = wr s +:+ d +:+ (if String.eqb d empty then empty else nl) /\
  wr (cr (htmlSpan empty s)) = wr s /\
  wr (cr (cr (outs nl s))) = wr s +:+ nl +:+ nl +:+ nl.
Proof.
  split; [|split].
  - unfold cr. change (lastOutputLen (rd (out d s))) with (len d).
    rewrite <- len_zero. unfold len.
    destruct (String.length d) eqn:El.
    + change (0 <? Z.of_nat 0) with false. change (Z.of_nat 0 =? 0) with true.
      cbv iota. rewrite wr_out, append_empty_r. reflexivity.
    + replace (0 <? Z.of_nat (S n)) with true
        by (symmetry; apply Z.ltb_lt; lia).
      replace (Z.of_nat (S n) =? 0) with false
        by (symmetry; apply Z.eqb_neq; lia).
      rewrite wr_outs, wr_out, append_assoc. reflexivity.
  - change (cr (htmlSpan empty s)) with (out empty s).
    rewrite wr_out. apply append_empty_r.
  - change (cr (cr (outs nl s))) with (outs nl (outs nl (outs nl s))).
    rewrite !wr_outs, !append_assoc. reflexivity.
Qed.

(** *** Lists: counters, flags and depth *)

Lemma incr_neq (d : Z) : is_int d -> incr d <> d.
Proof.
  unfold is_int, incr, wrap.
  change (2 ^ 63) with 9223372036854775808.
  change (2 ^ 64) with 18446744073709551616.
  intros H.
  destruct (Z.eq_dec d 9223372036854775807) as [->|Hne]; [discriminate|].
  rewrite Z.mod_small by lia. lia.
Qed.

Lemma counterAt_insert (m : gmap Z Z) (k j v : Z) (r : Renderer) :
  counterAt (set_orderedListCounter (<[k := v]> m) r) j
  = if decide (k = j) then v else default 0 (m !! j).
Proof.
  unfold counterAt. cbn [orderedListCounter set_orderedListCounter].
  rewrite lookup_insert. destruct (decide (k = j)); reflexivity.
Qed.

Lemma paragraphAt_insert (m : gmap Z bool) (k j : Z) (v : bool) (r : Renderer) :
  paragraphAt (set_paragraph (<[k := v]> m) r) j
  = if decide (k = j) then v else default false (m !! j).
Proof.
  unfold paragraphAt. cbn [paragraph set_paragraph].
  rewrite lookup_insert. destruct (decide (k = j)); reflexivity.
Qed.

Lemma list_counters (flags : Z) (s : State) :
  orderedListCounter (rd (list_ flags s))
  = if negb (Z.land flags ListTypeOrdered =? 0)
    then <[incr (listDepth (rd s)) := 1]> (orderedListCounter (rd s))
    else orderedListCounter (rd s).
Proof.
  unfold list_, andThen.
  destruct (negb (Z.land flags ListTypeOrdered =? 0)); reflexivity.
Qed.

(** X8.  Entering a list touches one counter only, that of the depth above
    the current one (set to 1 for an ordered list, left alone otherwise).
    The counter of the current depth, which is the one the items of the list
    then read, is not reset, and the depth and the paragraph flags are as
    before. *)
Theorem list_sets_only_next_depth_counter (flags : Z) (s : State) :
  is_int (listDepth (rd s)) ->
  listDepth (rd (list_ flags s)) = listDepth (rd s) /\
  counterAt (rd (list_ flags s)) (listDepth (rd s))
  = counterAt (rd s) (listDepth (rd s)) /\
  (forall k, k <> incr (listDepth (rd s)) ->
     counterAt (rd (list_ flags s)) k = counterAt (rd s) k) /\
  counterAt (rd (list_ flags s)) (incr (listDepth (rd s)))
  = (if negb (Z.land flags ListTypeOrdered =? 0) then 1
     else counterAt (rd s) (incr (listDepth (rd s)))) /\
  paragraph (rd (list_ flags s)) = paragraph (rd s) /\
  wr (list_ flags s) = wr s +:+ nl.
Proof.
  intros Hd.
  assert (Hother : forall k, k <> incr (listDepth (rd s)) ->
            counterAt (rd (list_ flags s)) k = counterAt (rd s) k).
  { intros k Hk. unfold counterAt. rewrite list_counters.
    destruct (negb (Z.land flags ListTypeOrdered =? 0)); [|reflexivity].
    rewrite lookup_insert_ne by congruence. reflexivity. }
  split; [apply list_listDepth; exact Hd|].
  split; [apply Hother; intros H; symmetry in H; revert H; apply incr_neq; exact Hd|].
  split; [exact Hother|].
  split; [|split].
  - unfold counterAt. rewrite list_counters.
    destruct (negb (Z.land flags ListTypeOrdered =? 0)); [|reflexivity].
    rewrite lookup_insert_eq. reflexivity.
  - unfold list_, andThen.
    destruct (negb (Z.land flags ListTypeOrdered =? 0)); reflexivity.
  - unfold list_, andThen.
    destruct (negb (Z.land flags ListTypeOrdered =? 0)); reflexivity.
Qed.

(** X8 on a new renderer and an ordered list. *)
Lemma list_sets_only_next_depth_counter_witness :
  is_int (listDepth (rd fresh)) /\
  counterAt (rd (list_ ListTypeOrdered fresh)) (listDepth (rd fresh))
  = counterAt (rd fresh) (listDepth (rd fresh)).
Proof.
  assert (H : is_int (listDepth (rd fresh))) by (unfold is_int; simpl; lia).
  split; [exact H|].
  exact (proj1 (proj2
           (list_sets_only_next_depth_counter ListTypeOrdered fresh H))).
Defined.

(** The three effects of [listItem], each in closed form. *)
Lemma listItem_effects (flags : Z) (lit : string) (s : State) :
  let d := listDepth (rd s) in
  let ordered := negb (Z.land flags ListTypeOrdered =? 0) in
  let loose := paragraphAt (rd s) d in
  orderedListCounter (rd (listItem flags lit s))
  = (if ordered then <[d := incr (counterAt (rd s) d)]> (orderedListCounter (rd s))
     else orderedListCounter (rd s)) /\
  paragraph (rd (listItem flags lit s))
  = (if loose then <[d := false]> (paragraph (rd s)) else paragraph (rd s)) /\
  wr (listItem flags lit s)
  = wr s +:+ (if ordered then itoa (counterAt (rd s) d) +:+ "." else "-")
    +:+ indentWrite 1 lit +:+ nl
    +:+ (if loose && (Z.land flags ListItemEndOfList =? 0) then nl else empty) /\
  listDepth (rd (listItem flags lit s)) = d /\
  lastOutputLen (rd (listItem flags lit s)) = 1.
Proof.
  intros d ordered loose. unfold listItem, andThen. fold ordered.
  destruct ordered;
    match goal with
    | |- context [paragraphAt ?r ?k] =>
        change (paragraphAt r k) with loose
    end;
    destruct loose; cbn [andb];
    try (destruct (Z.land flags ListItemEndOfList =? 0));
    (repeat split; try reflexivity);
    unfold skip; cbv beta;
    repeat first [ rewrite wr_outs | rewrite wr_modR | rewrite wr_Write ];
    rewrite ?append_assoc, ?append_empty_r; reflexivity.
Qed.

(** X9.  An ordered list item is marked with the counter of the current
    depth and moves that counter on by one; an unordered item is marked
    with a hyphen and leaves every counter alone.  No item touches the
    counter of another depth, or the depth. *)
Theorem listItem_counter (flags : Z) (lit : string) (s : State) :
  let d := listDepth (rd s) in
  let ordered := negb (Z.land flags ListTypeOrdered =? 0) in
  (exists rest,
     wr (listItem flags lit s)
     = wr s +:+ (if ordered then itoa (counterAt (rd s) d) +:+ "." else "-")
       +:+ rest) /\
  counterAt (rd (listItem flags lit s)) d
  = (if ordered then incr (counterAt (rd s) d) else counterAt (rd s) d) /\
  (forall k, k <> d ->
     counterAt (rd (listItem flags lit s)) k = counterAt (rd s) k) /\
  listDepth (rd (listItem flags lit s)) = d.
Proof.
  intros d ordered.
  destruct (listItem_effects flags lit s) as (Hc & _ & Hw & Hd & _).
  fold d in Hc, Hw, Hd. fold ordered in Hc, Hw.
  split; [eexists; exact Hw|]. split; [|split; [|exact Hd]].
  - unfold counterAt at 1. rewrite Hc. destruct ordered; [|reflexivity].
    rewrite lookup_insert_eq. reflexivity.
  - intros k Hk. unfold counterAt at 1. rewrite Hc.
    destruct ordered; [|reflexivity].
    rewrite lookup_insert_ne by congruence. reflexivity.
Qed.

(** X9 on the first item after a list was entered on a new renderer: the
    counter of depth 1 is left as the list set it. *)
Lemma listItem_counter_witness :
  counterAt (rd (listItem ListTypeOrdered empty (list_ ListTypeOrdered fresh))) 1
  = counterAt (rd (list_ ListTypeOrdered fresh)) 1.
Proof.
  exact (proj1 (proj2 (proj2
           (listItem_counter ListTypeOrdered empty (list_ ListTypeOrdered fresh))))
         1 ltac:(discriminate)).
Defined.

(** X10.  After its content and a newline, a list item writes one more
    newline exactly when the paragraph flag of the current depth is set and
    the item is not flagged as the last of its list.  The flag of that
    depth is false afterwards, the flags of the other depths are as before,
    and the last write has length 1. *)
Theorem listItem_loose_spacing (flags : Z) (lit : string) (s : State) :
  let d := listDepth (rd s) in
  let ordered := negb (Z.land flags ListTypeOrdered =? 0) in
  wr (listItem flags lit s)
  = wr s +:+ (if ordered then itoa (counterAt (rd s) d) +:+ "." else "-")
    +:+ indentWrite 1 lit +:+ nl
    +:+ (if paragraphAt (rd s) d && (Z.land flags ListItemEndOfList =? 0)
         then nl else empty) /\
  paragraphAt (rd (listItem flags lit s)) d = false /\
  (forall k, k <> d ->
     paragraphAt (rd (listItem flags lit s)) k = paragraphAt (rd s) k) /\
  lastOutputLen (rd (listItem flags lit s)) = 1.
Proof.
  intros d ordered.
  destruct (listItem_effects flags lit s) as (_ & Hp & Hw & _ & Hl).
  fold d in Hp, Hw. fold ordered in Hw.
  split; [exact Hw|]. split; [|split; [|exact Hl]].
  - unfold paragraphAt at 1. rewrite Hp.
    destruct (paragraphAt (rd s) d) eqn:E; [|exact E].
    rewrite lookup_insert_eq. reflexivity.
  - intros k Hk. unfold paragraphAt at 1. rewrite Hp.
    destruct (paragraphAt (rd s) d); [|reflexivity].
    rewrite lookup_insert_ne by congruence. reflexivity.
Qed.

(** X10 on an item that follows a paragraph: the flag set by the paragraph
    at depth 0 is left alone at depth 1. *)
Lemma listItem_loose_spacing_witness :
  paragraphAt (rd (listItem 0 empty (doParagraph fresh))) 1
  = paragraphAt (rd (doParagraph fresh)) 1.
Proof.
  exact (proj1 (proj2 (proj2
           (listItem_loose_spacing 0 empty (doParagraph fresh))))
         1 ltac:(discriminate)).
Defined.

(** *** The walk as a whole *)

Section WalkProperties.

Variable format_Source : string -> option string.

Lemma Walk_Container_no_hook (n : Node) (cs : list Tree) (s : State) :
  RenderNodeHook (opts (rd s)) = None ->
  Walk format_Source (Container n cs) s
  = (GoToNext,
     dispatch format_Source n
       (snd (WalkChildren format_Source cs (dispatch format_Source n s)))).
Proof.
  intros H. rewrite Walk_Container, RenderNode_no_hook by exact H.
  assert (H1 : RenderNodeHook (opts (rd (dispatch format_Source n s))) = None)
    by (rewrite dispatch_opts; exact H).
  destruct (WalkChildren_no_hook format_Source cs _ H1) as [Hst Hopts].
  destruct (WalkChildren format_Source cs (dispatch format_Source n s))
    as [st s2].
  cbn [fst snd] in *. subst st.
  rewrite RenderNode_no_hook by congruence. reflexivity.
Qed.

Lemma WalkChildren_listDepth (cs : list Tree) :
  Forall (fun t => forall s,
            RenderNodeHook (opts (rd s)) = None ->
            is_int (listDepth (rd s)) ->
            listDepth (rd (snd (Walk format_Source t s))) = listDepth (rd s)) cs ->
  forall s,
    RenderNodeHook (opts (rd s)) = None ->
    is_int (listDepth (rd s)) ->
    listDepth (rd (snd (WalkChildren format_Source cs s))) = listDepth (rd s).
Proof.
  induction 1 as [|c cs Hc _ IH]; intros s Hh Hd; [reflexivity|].
  cbn [WalkChildren].
  destruct (Walk_no_hook format_Source c s Hh) as [Hst Hopts].
  specialize (Hc s Hh Hd).
  destruct (Walk format_Source c s) as [st s1]. cbn [fst snd] in *. subst st.
  rewrite IH by congruence. exact Hc.
Qed.

(** X11.  Without a hook, the walk of any tree leaves [listDepth] where it
    found it; in particular [listDepth] is 0 after rendering any document on
    a new renderer. *)
Theorem Walk_restores_listDepth (t : Tree) (s : State) :
  RenderNodeHook (opts (rd s)) = None ->
  is_int (listDepth (rd s)) ->
  listDepth (rd (snd (Walk format_Source t s))) = listDepth (rd s).
Proof.
  revert s. induction t as [n|n cs IH] using Tree_ind; intros s Hh Hd.
  - cbn [Walk]. rewrite RenderNode_no_hook by exact Hh. cbn [snd].
    apply dispatch_listDepth. exact Hd.
  - rewrite Walk_Container_no_hook by exact Hh. cbn [snd].
    assert (H1 : RenderNodeHook (opts (rd (dispatch format_Source n s))) = None)
      by (rewrite dispatch_opts; exact Hh).
    assert (D1 : listDepth (rd (dispatch format_Source n s)) = listDepth (rd s))
      by (apply dispatch_listDepth; exact Hd).
    pose proof (WalkChildren_listDepth cs IH _ H1) as HW.
    rewrite D1 in HW. specialize (HW Hd).
    rewrite dispatch_listDepth by (rewrite HW; exact Hd).
    exact HW.
Qed.

(** X12.  A container whose own routine does nothing (the document, an
    emphasis with an empty literal, a node of a kind the renderer has no
    case for) is transparent: walking it is walking its children. *)
Theorem Walk_transparent_container (n : Node) (cs : list Tree) (s : State) :
  RenderNodeHook (opts (rd s)) = None ->
  n = Document \/ n = Emph empty \/ n = Other ->
  Walk format_Source (Container n cs) s
  = (GoToNext, snd (WalkChildren format_Source cs s)).
Proof.
  intros Hh Hn. rewrite Walk_Container_no_hook by exact Hh.
  destruct Hn as [->|[->| ->]]; reflexivity.
Qed.

End WalkProperties.

(** X11 on the ordered list of three items. *)
Lemma Walk_restores_listDepth_witness :
  listDepth (rd (snd (Walk gofmt_rejects orderedList3 fresh)))
  = listDepth (rd fresh).
Proof.
  apply (Walk_restores_listDepth gofmt_rejects orderedList3 fresh).
  - reflexivity.
  - unfold is_int. simpl. lia.
Defined.

(** X12 on an emphasis around one text. *)
Lemma Walk_transparent_container_witness :
  Walk gofmt_rejects (Container (Emph empty) [Leaf (Text "a")]) fresh
  = (GoToNext, snd (WalkChildren gofmt_rejects [Leaf (Text "a")] fresh)).
Proof.
  apply (Walk_transparent_container gofmt_rejects (Emph empty)
           [Leaf (Text "a")] fresh).
  - reflexivity.
  - right. left. reflexivity.
Defined.

(** *** Links and images *)

Lemma State_eq (a b : State) :
  rd a = rd b -> wr a = wr b -> gofmtCalls a = gofmtCalls b -> a = b.
Proof. destruct a, b. cbn. intros -> -> ->. reflexivity. Qed.

Lemma rd_outs (d : string) (s : State) :
  rd (outs d s) = set_lastOutputLen (len d) (rd s).
Proof. reflexivity. Qed.

Lemma rd_out (d : string) (s : State) :
  rd (out d s) = set_lastOutputLen (len d) (rd s).
Proof. reflexivity. Qed.

Lemma set_lastOutputLen_twice (n m : Z) (r : Renderer) :
  set_lastOutputLen n (set_lastOutputLen m r) = set_lastOutputLen n r.
Proof. reflexivity. Qed.

(** X13.  An image is written as an exclamation mark followed by the link
    with the same destination and title and an empty text: the two
    routines end in the same state. *)
Theorem image_is_bang_then_link (dest title : string) (s : State) :
  image dest title s = link dest title empty (Write "!" s).
Proof.
  unfold image, link.
  destruct (negb (len title =? 0)); unfold skip; rewrite !andThen_apply;
    apply State_eq;
    rewrite ?rd_outs, ?rd_out, ?wr_outs, ?wr_out, ?wr_Write;
    rewrite ?set_lastOutputLen_twice, ?append_assoc; reflexivity.
Qed.

(** *** What the options can change *)

Section OptionsFrame.

Variable g : Options -> Options.
Variable format_Source : string -> option string.

Lemma commutes_skip : commutes g skip.
Proof. intros s. reflexivity. Qed.

Lemma commutes_andThen (a b : Act) :
  commutes g a -> commutes g b -> commutes g (a >>> b).
Proof. intros Ha Hb s. unfold andThen. rewrite Ha, Hb. reflexivity. Qed.

Lemma commutes_if (c : bool) (a b : Act) :
  commutes g a -> commutes g b -> commutes g (if c then a else b).
Proof. destruct c; auto. Qed.

Lemma commutes_Write (d : string) : commutes g (Write d).
Proof. intros s. reflexivity. Qed.

Lemma commutes_outs (d : string) : commutes g (outs d).
Proof. intros s. reflexivity. Qed.

Lemma commutes_out (d : string) : commutes g (out d).
Proof. intros s. reflexivity. Qed.

Lemma commutes_cr : commutes g cr.
Proof.
  intros s. unfold cr.
  change (lastOutputLen (rd (mapOpts g s))) with (lastOutputLen (rd s)).
  destruct (0 <? lastOutputLen (rd s)); reflexivity.
Qed.

Ltac commute :=
  repeat first
    [ apply commutes_skip | apply commutes_outs | apply commutes_out
    | apply commutes_Write | apply commutes_cr
    | match goal with
      | |- commutes _ (_ >>> _) => apply commutes_andThen
      | |- commutes _ (if _ then _ else _) => apply commutes_if
      end ].

Lemma commutes_list (flags : Z) : commutes g (list_ flags).
Proof. unfold list_, doubleSpace. commute; intros s; reflexivity. Qed.

Lemma commutes_listItem (flags : Z) (lit : string) :
  commutes g (listItem flags lit).
Proof.
  unfold listItem. commute; intros s; try reflexivity.
  change (paragraphAt (rd (mapOpts g s)) (listDepth (rd (mapOpts g s))))
    with (paragraphAt (rd s) (listDepth (rd s))).
  destruct (paragraphAt (rd s) (listDepth (rd s))); [|reflexivity].
  revert s. change (commutes g
    ((if Z.land flags ListItemEndOfList =? 0 then outs nl else skip) >>>
     modR (fun r => set_paragraph (<[listDepth r := false]> (paragraph r)) r))).
  commute. intros s. reflexivity.
Qed.

Lemma commutes_quoteLoop (n i : Z) (lines : list string) :
  commutes g (quoteLoop n i lines).
Proof.
  revert i. induction lines as [|line lines IH]; intros i; cbn [quoteLoop].
  - commute.
  - commute. apply IH.
Qed.

Lemma commutes_text (lit : string) : commutes g (text lit).
Proof.
  intros s. unfold text.
  change (lastNormalText (rd (mapOpts g s))) with (lastNormalText (rd s)).
  set (l := if needsEscaping lit (lastNormalText (rd s)) then _ else _).
  change (listDepth (rd (modR (set_lastNormalText lit) (mapOpts g s))))
    with (listDepth (rd (modR (set_lastNormalText lit) s))).
  destruct ((0 <? listDepth (rd (modR (set_lastNormalText lit) s)))
            && String.eqb l nl); [reflexivity|].
  destruct (String.eqb (cleanWithoutTrim l) empty); reflexivity.
Qed.

(** [strong] reads the [Terminal] option: it commutes with every change of
    the options that keeps it. *)
Lemma commutes_strong (lit : string) :
  (forall o, Terminal (g o) = Terminal o) -> commutes g (strong lit).
Proof.
  intros HT s. unfold strong.
  change (Terminal (opts (rd (mapOpts g s))))
    with (Terminal (g (opts (rd s)))).
  rewrite HT. generalize (Terminal (opts (rd s))). intros terminal. revert s.
  change (commutes g
    ((if terminal then outs (ESC +:+ "[1m") else skip) >>>
     outs "**" >>> out lit >>> outs "**" >>>
     (if terminal then outs (ESC +:+ "[0m") else skip))).
  commute.
Qed.

Lemma commutes_langLoop (elts : list string) (s : State) :
  langLoop elts (mapOpts g s)
  = (mapOpts g (fst (langLoop elts s)), snd (langLoop elts s)).
Proof.
  induction elts as [|elt elts IH]; cbn [langLoop]; [reflexivity|].
  match goal with |- context [len ?e =? 0] => destruct (len e =? 0) end.
  - exact IH.
  - reflexivity.
Qed.

Lemma commutes_codeBlock (info lit : string) :
  commutes g (codeBlock format_Source info lit).
Proof.
  intros s. unfold codeBlock.
  change (doubleSpace (mapOpts g s)) with (mapOpts g (doubleSpace s)).
  rewrite commutes_langLoop.
  destruct (langLoop (Fields info) (doubleSpace s)) as [s1 count].
  cbn [fst snd].
  unfold formatCode.
  destruct (count =? 0), (oneOf info ["Go"; "go"]);
    try destruct (format_Source lit); reflexivity.
Qed.

(** Every case of the type switch commutes with a change of the options,
    the one of [Strong] when the change keeps [Terminal]. *)
Lemma commutes_dispatch (node : Node) :
  (forall o, Terminal (g o) = Terminal o) \/ (forall lit, node <> Strong lit) ->
  commutes g (dispatch format_Source node).
Proof.
  intros H. destruct node; cbn [dispatch];
    try (unfold emphasis, del, blockQuote, link, image, code, doParagraph,
           htmlSpan, htmlBlock, heading, horizontalRule, doubleSpace;
         commute;
         first [ apply commutes_quoteLoop | intros s; reflexivity ]);
    first [ apply commutes_text | apply commutes_codeBlock
          | apply commutes_list | apply commutes_listItem | idtac ].
  destruct H as [HT|Hns]; [apply commutes_strong; exact HT|].
  exfalso. eapply Hns. reflexivity.
Qed.

End OptionsFrame.

(** X14.  The [Terminal] option is read by [strong] only: for a node of any
    other kind, rendering it with the option set one way or the other
    writes the same bytes and makes the same updates. *)
Theorem Terminal_only_read_by_strong
  (format_Source : string -> option string) (b : bool) (node : Node)
  (s : State) :
  (forall lit, node <> Strong lit) ->
  dispatch format_Source node (mapOpts (withTerminal b) s)
  = mapOpts (withTerminal b) (dispatch format_Source node s) /\
  wr (dispatch format_Source node (mapOpts (withTerminal b) s))
  = wr (dispatch format_Source node s).
Proof.
  intros H.
  assert (E : dispatch format_Source node (mapOpts (withTerminal b) s)
              = mapOpts (withTerminal b) (dispatch format_Source node s)).
  { apply commutes_dispatch. right. exact H. }
  split; [exact E|]. rewrite E. reflexivity.
Qed.

(** X14 on a heading rendered with terminal styling switched on. *)
Lemma Terminal_only_read_by_strong_witness :
  wr (dispatch gofmt_rejects (Heading 3) (mapOpts (withTerminal true) fresh))
  = wr (dispatch gofmt_rejects (Heading 3) fresh).
Proof.
  exact (proj2 (Terminal_only_read_by_strong gofmt_rejects true (Heading 3)
                  fresh ltac:(discriminate))).
Defined.

(** X15.  [strong] writes the literal between two pairs of asterisks; with
    [Terminal] set, and only then, this is preceded by the escape sequence
    for bold and followed by the one for reset.  The literal is written
    even when it is empty. *)
Theorem strong_terminal_wrapping (lit : string) (s : State) :
  wr (strong lit s)
  = wr s +:+ (if Terminal (opts (rd s)) then ESC +:+ "[1m" else empty)
    +:+ "**" +:+ lit +:+ "**"
    +:+ (if Terminal (opts (rd s)) then ESC +:+ "[0m" else empty) /\
  wr (strong lit (mapOpts (withTerminal true) s))
  = wr s +:+ ESC +:+ "[1m" +:+ "**" +:+ lit +:+ "**" +:+ ESC +:+ "[0m" /\
  wr (strong lit (mapOpts (withTerminal false) s))
  = wr s +:+ "**" +:+ lit +:+ "**".
Proof.
  assert (H : forall s0, wr (strong lit s0)
    = wr s0 +:+ (if Terminal (opts (rd s0)) then ESC +:+ "[1m" else empty)
      +:+ "**" +:+ lit +:+ "**"
      +:+ (if Terminal (opts (rd s0)) then ESC +:+ "[0m" else empty)).
  { intros s0. unfold strong.
    destruct (Terminal (opts (rd s0))); unfold skip;
      rewrite !andThen_apply, ?wr_outs, ?wr_out, ?wr_outs;
      rewrite ?append_assoc, ?append_empty_r; reflexivity. }
  split; [apply H|]. split.
  - rewrite H. cbn [Terminal opts rd mapOpts modR set_opts withTerminal wr].
    rewrite !append_assoc. reflexivity.
  - rewrite H. cbn [Terminal opts rd mapOpts modR set_opts withTerminal wr].
    rewrite append_empty_r. reflexivity.
Qed.

(** *** Hooks *)

Section DecliningHook.

Variable format_Source : string -> option string.
Variable h : RenderNodeFunc.
Hypothesis h_declines : declines h.

Lemma Write_empty (s : State) : Write empty s = s.
Proof. apply State_eq; try reflexivity. apply append_empty_r. Qed.

Lemma RenderNode_declined (node : Node) (entering : bool) (s : State) :
  RenderNode format_Source node entering (mapOpts (withHook (Some h)) s)
  = (GoToNext, mapOpts (withHook (Some h)) (dispatch format_Source node s)).
Proof.
  unfold RenderNode.
  change (RenderNodeHook (opts (rd (mapOpts (withHook (Some h)) s))))
    with (Some h).
  destruct (h_declines node entering) as [status E]. rewrite E.
  rewrite Write_empty. f_equal.
  apply commutes_dispatch. left. reflexivity.
Qed.

Lemma WalkChildren_declined (cs : list Tree) :
  Forall (fun t => forall s,
            RenderNodeHook (opts (rd s)) = None ->
            Walk format_Source t (mapOpts (withHook (Some h)) s)
            = (GoToNext,
               mapOpts (withHook (Some h)) (snd (Walk format_Source t s)))) cs ->
  forall s,
    RenderNodeHook (opts (rd s)) = None ->
    WalkChildren format_Source cs (mapOpts (withHook (Some h)) s)
    = (GoToNext,
       mapOpts (withHook (Some h)) (snd (WalkChildren format_Source cs s))).
Proof.
  induction 1 as [|c cs Hc _ IH]; intros s Hh; [reflexivity|].
  cbn [WalkChildren]. rewrite (Hc s Hh).
  destruct (Walk_no_hook format_Source c s Hh) as [Hst Hopts].
  destruct (Walk format_Source c s) as [st s1]. cbn [fst snd] in *. subst st.
  apply IH. congruence.
Qed.

Lemma Walk_declined (t : Tree) :
  forall s,
    RenderNodeHook (opts (rd s)) = None ->
    Walk format_Source t (mapOpts (withHook (Some h)) s)
    = (GoToNext, mapOpts (withHook (Some h)) (snd (Walk format_Source t s))).
Proof.
  induction t as [n|n cs IH] using Tree_ind; intros s Hh.
  - cbn [Walk]. rewrite RenderNode_declined, RenderNode_no_hook by exact Hh.
    reflexivity.
  - rewrite (Walk_Container_no_hook format_Source n cs s Hh). cbn [snd].
    rewrite Walk_Container, RenderNode_declined.
    assert (H1 : RenderNodeHook (opts (rd (dispatch format_Source n s))) = None)
      by (rewrite dispatch_opts; exact Hh).
    rewrite (WalkChildren_declined cs IH _ H1).
    rewrite RenderNode_declined. reflexivity.
Qed.

End DecliningHook.

(** X16.  A hook that declines every node and writes nothing is
    transparent: the walk of any tree goes through the same states as
    without the hook (the options apart), and [Render] returns the same
    bytes. *)
Theorem declining_hook_is_transparent
  (format_Source : string -> option string) (h : RenderNodeFunc)
  (terminal : bool) (doc : Tree) (s : State) :
  declines h ->
  (RenderNodeHook (opts (rd s)) = None ->
   Walk format_Source doc (mapOpts (withHook (Some h)) s)
   = (GoToNext,
      mapOpts (withHook (Some h)) (snd (Walk format_Source doc s)))) /\
  Render format_Source doc
    (NewRenderer (Some (mkOptions terminal (Some h))))
  = Render format_Source doc (NewRenderer (Some (mkOptions terminal None))).
Proof.
  intros Hd. split; [apply Walk_declined; exact Hd|].
  unfold Render, RenderState, RenderFrom, RenderFooter, RenderHeader, skip.
  change (mkState (NewRenderer (Some (mkOptions terminal (Some h)))) empty [])
    with (mapOpts (withHook (Some h))
            (mkState (NewRenderer (Some (mkOptions terminal None))) empty [])).
  rewrite (Walk_declined format_Source h Hd) by reflexivity.
  reflexivity.
Qed.

(** X16 on the sample hook and the ordered list. *)
Lemma declining_hook_is_transparent_witness :
  declines decliningHook /\
  Render gofmt_rejects orderedList3
    (NewRenderer (Some (mkOptions false (Some decliningHook))))
  = Render gofmt_rejects orderedList3
      (NewRenderer (Some (mkOptions false None))).
Proof.
  assert (H : declines decliningHook)
    by (intros node entering; exists GoToNext; reflexivity).
  split; [exact H|].
  exact (proj2 (declining_hook_is_transparent gofmt_rejects decliningHook
                  false orderedList3 fresh H)).
Defined.

(** *** The fragment before a period *)

(** X17.  [lastNormalText] is written by [text] only: after a node of any
    other kind it is what it was.  So whether a period is escaped depends
    on the last text node rendered, whatever inline or block nodes were
    rendered in between. *)
Theorem lastNormalText_written_by_text_only
  (format_Source : string -> option string) (node : Node) (prev : string)
  (s : State) :
  (forall lit, node <> Text lit) ->
  lastNormalText (rd (dispatch format_Source node s)) = lastNormalText (rd s) /\
  needsEscaping "."
    (lastNormalText (rd (dispatch format_Source node (text prev s))))
  = isNumber prev.
Proof.
  intros Hn.
  assert (H : forall s0, lastNormalText (rd (dispatch format_Source node s0))
                         = lastNormalText (rd s0)).
  { intros s0. destruct node; cbn [dispatch];
      [> exfalso; eapply Hn; reflexivity
       | apply (keeps_cr lastNormalText); reflexivity
       | apply (keeps_outs lastNormalText); reflexivity
       | apply (keeps_emphasis lastNormalText); reflexivity
       | apply (keeps_strong lastNormalText); reflexivity
       | apply (keeps_del lastNormalText); reflexivity
       | apply (keeps_blockQuote lastNormalText); reflexivity
       | apply (keeps_link lastNormalText); reflexivity
       | apply (keeps_image lastNormalText); reflexivity
       | apply (keeps_code lastNormalText); reflexivity
       | apply (keeps_codeBlock lastNormalText); reflexivity
       | reflexivity
       | apply (keeps_doParagraph lastNormalText); reflexivity
       | apply (keeps_htmlSpan lastNormalText); reflexivity
       | apply (keeps_htmlBlock lastNormalText); reflexivity
       | apply (keeps_heading lastNormalText); reflexivity
       | apply (keeps_horizontalRule lastNormalText); reflexivity
       | unfold list_, andThen;
         destruct (negb (Z.land ListFlags ListTypeOrdered =? 0)); reflexivity
       | apply (keeps_listItem lastNormalText); reflexivity
       | reflexivity ]. }
  split; [apply H|]. rewrite H, text_lastNormalText. reflexivity.
Qed.

(** X17 on an inline code span between a number and a period. *)
Lemma lastNormalText_written_by_text_only_witness :
  needsEscaping "."
    (lastNormalText (rd (dispatch gofmt_rejects (Code "x") (text "5" fresh))))
  = isNumber "5".
Proof.
  exact (proj2 (lastNormalText_written_by_text_only gofmt_rejects (Code "x")
                  "5" fresh ltac:(discriminate))).
Defined.

(** *** Calls of the formatter *)

Section FormatterCalls.

Variable format_Source : string -> option string.

Lemma keepsLog_skip : keepsLog skip.
Proof. intros s. reflexivity. Qed.

Lemma keepsLog_andThen (a b : Act) :
  keepsLog a -> keepsLog b -> keepsLog (a >>> b).
Proof. intros Ha Hb s. unfold andThen. rewrite Hb, Ha. reflexivity. Qed.

Lemma keepsLog_if (c : bool) (a b : Act) :
  keepsLog a -> keepsLog b -> keepsLog (if c then a else b).
Proof. destruct c; auto. Qed.

Lemma keepsLog_modR (f : Renderer -> Renderer) : keepsLog (modR f).
Proof. intros s. reflexivity. Qed.

Lemma keepsLog_Write (d : string) : keepsLog (Write d).
Proof. intros s. reflexivity. Qed.

Lemma keepsLog_outs (d : string) : keepsLog (outs d).
Proof. intros s. reflexivity. Qed.

Lemma keepsLog_out (d : string) : keepsLog (out d).
Proof. intros s. reflexivity. Qed.

Ltac quiet :=
  repeat first
    [ apply keepsLog_skip | apply keepsLog_outs | apply keepsLog_out
    | apply keepsLog_Write | apply keepsLog_modR
    | match goal with
      | |- keepsLog (_ >>> _) => apply keepsLog_andThen
      | |- keepsLog (if _ then _ else _) => apply keepsLog_if
      end ].

Lemma keepsLog_quoteLoop (n i : Z) (lines : list string) :
  keepsLog (quoteLoop n i lines).
Proof.
  revert i. induction lines as [|line lines IH]; intros i; cbn [quoteLoop].
  - quiet.
  - quiet. apply IH.
Qed.

Lemma keepsLog_listItem (flags : Z) (lit : string) :
  keepsLog (listItem flags lit).
Proof.
  unfold listItem. quiet; intros s; try reflexivity.
  destruct (paragraphAt (rd s) (listDepth (rd s))); [|reflexivity].
  destruct (Z.land flags ListItemEndOfList =? 0); reflexivity.
Qed.

Lemma keepsLog_text (lit : string) : keepsLog (text lit).
Proof.
  intros s. unfold text.
  destruct (needsEscaping lit (lastNormalText (rd s)));
    match goal with |- context [if ?c then _ else _] => destruct c end;
    try reflexivity;
    match goal with |- context [if ?c then _ else _] => destruct c end;
    reflexivity.
Qed.

Lemma keepsLog_strong (lit : string) : keepsLog (strong lit).
Proof.
  intros s. unfold strong. destruct (Terminal (opts (rd s))); reflexivity.
Qed.

Lemma codeBlock_log (info lit : string) (s : State) :
  gofmtCalls (codeBlock format_Source info lit s)
  = gofmtCalls s ++ formatterCall (CodeBlock info lit).
Proof.
  unfold codeBlock, formatterCall.
  pose proof (gofmtCalls_langLoop (Fields info) (doubleSpace s)) as HG.
  destruct (langLoop (Fields info) (doubleSpace s)) as [s1 count].
  cbn [fst] in HG.
  set (s2 := outs nl (if count =? 0 then outs FENCE s1 else s1)).
  assert (G2 : gofmtCalls s2 = gofmtCalls s).
  { unfold s2. destruct (count =? 0); exact HG. }
  clearbody s2. unfold formatCode.
  destruct (oneOf info ["Go"; "go"]).
  - destruct (format_Source lit);
      cbn [gofmtCalls outs out andThen modR Write]; rewrite G2; reflexivity.
  - cbn [gofmtCalls outs out andThen modR Write].
    rewrite G2, app_nil_r. reflexivity.
Qed.

(** One visit of a node calls the formatter as [formatterCall] says. *)
Lemma dispatch_log (node : Node) (s : State) :
  gofmtCalls (dispatch format_Source node s)
  = gofmtCalls s ++ formatterCall node.
Proof.
  destruct node; cbn [dispatch];
    [> cbn [formatterCall]; rewrite app_nil_r; apply keepsLog_text
     | cbn [formatterCall]; rewrite app_nil_r; unfold cr;
       destruct (0 <? lastOutputLen (rd s)); reflexivity
     | cbn [formatterCall]; rewrite app_nil_r; reflexivity
     | cbn [formatterCall]; rewrite app_nil_r; unfold emphasis;
       destruct (len Literal =? 0); reflexivity
     | cbn [formatterCall]; rewrite app_nil_r; apply keepsLog_strong
     | cbn [formatterCall]; rewrite app_nil_r; reflexivity
     | cbn [formatterCall]; rewrite app_nil_r; revert s;
       change (keepsLog (blockQuote Literal)); unfold blockQuote, doubleSpace;
       quiet; apply keepsLog_quoteLoop
     | cbn [formatterCall]; rewrite app_nil_r; revert s;
       change (keepsLog (link Destination Title Literal)); unfold link; quiet
     | cbn [formatterCall]; rewrite app_nil_r; revert s;
       change (keepsLog (image Destination Title)); unfold image; quiet
     | cbn [formatterCall]; rewrite app_nil_r; reflexivity
     | apply codeBlock_log
     | cbn [formatterCall]; rewrite app_nil_r; reflexivity
     | cbn [formatterCall]; rewrite app_nil_r; reflexivity
     | cbn [formatterCall]; rewrite app_nil_r; reflexivity
     | cbn [formatterCall]; rewrite app_nil_r; reflexivity
     | cbn [formatterCall]; rewrite app_nil_r; unfold heading;
       destruct (3 <=? Level); reflexivity
     | cbn [formatterCall]; rewrite app_nil_r; reflexivity
     | cbn [formatterCall]; rewrite app_nil_r; unfold list_, andThen;
       destruct (negb (Z.land ListFlags ListTypeOrdered =? 0)); reflexivity
     | cbn [formatterCall]; rewrite app_nil_r; apply keepsLog_listItem
     | cbn [formatterCall]; rewrite app_nil_r; reflexivity ].
Qed.

Lemma formatterCalls_Container (n : Node) (cs : list Tree) :
  formatterCalls (Container n cs)
  = formatterCall n ++ formatterCallsOfList cs ++ formatterCall n.
Proof. reflexivity. Qed.

Lemma WalkChildren_log (cs : list Tree) :
  Forall (fun t => forall s,
            RenderNodeHook (opts (rd s)) = None ->
            gofmtCalls (snd (Walk format_Source t s))
            = gofmtCalls s ++ formatterCalls t) cs ->
  forall s,
    RenderNodeHook (opts (rd s)) = None ->
    gofmtCalls (snd (WalkChildren format_Source cs s))
    = gofmtCalls s ++ formatterCallsOfList cs.
Proof.
  induction 1 as [|c cs Hc _ IH]; intros s Hh.
  - cbn. rewrite app_nil_r. reflexivity.
  - cbn [WalkChildren formatterCallsOfList].
    destruct (Walk_no_hook format_Source c s Hh) as [Hst Hopts].
    specialize (Hc s Hh).
    destruct (Walk format_Source c s) as [st s1]. cbn [fst snd] in *. subst st.
    rewrite IH by congruence. rewrite Hc, app_assoc. reflexivity.
Qed.

(** X18.  Without a hook, the formatter is called on the literals of the
    code blocks whose info string is [Go] or [go], and on nothing else: once
    for each visit of such a block, in the order of the walk. *)
Theorem Walk_formatter_calls (t : Tree) (s : State) :
  RenderNodeHook (opts (rd s)) = None ->
  gofmtCalls (snd (Walk format_Source t s)) = gofmtCalls s ++ formatterCalls t.
Proof.
  revert s. induction t as [n|n cs IH] using Tree_ind; intros s Hh.
  - cbn [Walk]. rewrite RenderNode_no_hook by exact Hh. cbn [snd].
    apply dispatch_log.
  - rewrite Walk_Container_no_hook by exact Hh. cbn [snd].
    assert (H1 : RenderNodeHook (opts (rd (dispatch format_Source n s))) = None)
      by (rewrite dispatch_opts; exact Hh).
    rewrite dispatch_log, (WalkChildren_log cs IH _ H1), dispatch_log.
    rewrite formatterCalls_Container, !app_assoc. reflexivity.
Qed.

End FormatterCalls.

(** X18 on a document with a Go code block between two paragraphs. *)
Lemma Walk_formatter_calls_witness :
  gofmtCalls (snd (Walk gofmt_rewrites
                     (Container Document
                        [Container Paragraph [Leaf (Text "a")];
                         Leaf (CodeBlock "go" "x");
                         Container Paragraph [Leaf (Text "b")]]) fresh))
  = ["x"].
Proof.
  exact (Walk_formatter_calls gofmt_rewrites
           (Container Document
              [Container Paragraph [Leaf (Text "a")];
               Leaf (CodeBlock "go" "x");
               Container Paragraph [Leaf (Text "b")]]) fresh eq_refl).
Defined.

(** *** Loose list items *)

(** X19.  A list item emitted right after a paragraph at the same depth is
    a loose one: [doParagraph] sets the flag that [listItem] reads, so the
    item is followed by a blank line unless it is flagged as the last of
    its list, and the flag is cleared again. *)
Theorem paragraph_then_listItem (flags : Z) (lit : string) (s : State) :
  let d := listDepth (rd s) in
  let marker := if negb (Z.land flags ListTypeOrdered =? 0)
                then itoa (counterAt (rd s) d) +:+ "." else "-" in
  wr (listItem flags lit (doParagraph s))
  = wr s +:+ nl +:+ nl +:+ marker +:+ indentWrite 1 lit +:+ nl
    +:+ (if Z.land flags ListItemEndOfList =? 0 then nl else empty) /\
  paragraphAt (rd (doParagraph s)) d = true /\
  paragraphAt (rd (listItem flags lit (doParagraph s))) d = false.
Proof.
  intros d marker.
  assert (Hp : paragraphAt (rd (doParagraph s)) d = true).
  { unfold paragraphAt, doParagraph, doubleSpace. rewrite !andThen_apply.
    cbn [rd outs andThen modR Write paragraph set_paragraph set_lastOutputLen
         listDepth].
    rewrite lookup_insert_eq. reflexivity. }
  assert (Hd : listDepth (rd (doParagraph s)) = d) by reflexivity.
  assert (Hc : counterAt (rd (doParagraph s)) d = counterAt (rd s) d)
    by reflexivity.
  assert (Hw : wr (doParagraph s) = wr s +:+ nl +:+ nl).
  { unfold doParagraph, doubleSpace. rewrite !andThen_apply.
    rewrite wr_outs, wr_modR, wr_outs, append_assoc. reflexivity. }
  destruct (listItem_effects flags lit (doParagraph s)) as (_ & Hpar & Hwr & _).
  rewrite Hd in Hpar, Hwr. rewrite Hp in Hpar, Hwr. rewrite Hc, Hw in Hwr.
  cbn [andb] in Hwr.
  split; [|split; [exact Hp|]].
  - rewrite Hwr. unfold marker. rewrite !append_assoc. reflexivity.
  - unfold paragraphAt at 1. rewrite Hpar, lookup_insert_eq. reflexivity.
Qed.
